(** * terraform-provider-vaultpatch: the kv_keys resource

    A shallow embedding of [internal/provider/resource_kv_keys.go] and the
    properties of its partial-secret patching: which keys of the remote
    document each lifecycle handler touches, when it writes, and what it
    does with a failed fetch or store.

    Go maps [map[string]string] are [gmap string string]; a [for ... range]
    loop over a map is [map_fold] of the loop body; errors are their
    [Error()] text. *)

From stdpp Require Import gmap strings list fin_maps pretty.
From stdpp Require Import sorting.

Abbreviation Doc := (gmap string string).

(** ** Map helpers of the resource *)

(** Body of [for k, v := range m { merged[k] = v }]. *)
Definition assign_step (k v : string) (merged : Doc) : Doc := <[k:=v]> merged.

(** [mergeKeys]: a fresh map receives every entry of [existingData], then
    every entry of [newKeys]. *)
Definition mergeKeys (existingData newKeys : Doc) : Doc :=
  let merged : Doc := ∅ in
  let merged := map_fold assign_step merged existingData in
  let merged := map_fold assign_step merged newKeys in
  merged.

(** Body of the loop of [keysMatch]: [return false] at the first planned
    entry that [existing] lacks or holds with another value; [rest] is the
    remainder of the iteration. *)
Definition match_step (existing : Doc) (k v : string) (rest : bool) : bool :=
  match existing !! k with
  | Some ev => if decide (ev = v) then rest else false
  | None => false
  end.

Definition keysMatch (existing planned : Doc) : bool :=
  map_fold (match_step existing) true planned.

(** Body of the loop of [Update]:
    [if _, existsInPlan := planKeys[key]; !existsInPlan { delete(existingData, key) }]. *)
Definition drop_unplanned_step (planKeys : Doc) (key _v : string) (existingData : Doc) : Doc :=
  match planKeys !! key with
  | Some _ => existingData
  | None => delete key existingData
  end.

(** Body of the loop of [Delete]: [delete(existingData, key)]. *)
Definition drop_step (key _v : string) (existingData : Doc) : Doc :=
  delete key existingData.

(** Body of the loop of [Read]:
    [if val, exists := existingData[key]; exists { currentKeys[key] = val }]. *)
Definition observe_step (existingData : Doc) (key _v : string) (currentKeys : Doc) : Doc :=
  match existingData !! key with
  | Some val => <[key:=val]> currentKeys
  | None => currentKeys
  end.

(** ** The HTTP transport and the JSON decoding of a response *)

(** A value of type [interface{}] decoded from JSON, as far as
    [fmt.Sprintf("%v", v)] tells them apart: numbers, arrays and objects
    carry the text [%v] prints for them. *)
Inductive JVal :=
  | JString (s : string)
  | JBool (b : bool)
  | JNull
  | JOther (shown : string).

(** [fmt.Sprintf("%v", v)] *)
Definition format_v (v : JVal) : string :=
  match v with
  | JString s => s
  | JBool true => "true"
  | JBool false => "false"
  | JNull => "<nil>"
  | JOther shown => shown
  end.

(** What [json.Unmarshal(body, &result)] leaves in [result.Data.Data]. *)
Inductive Unmarshalled :=
  | UnmarshalError (err : string)
  | DataNil
  | DataMap (d : gmap string JVal).

(** The body of a response: the bytes [io.ReadAll] returns with its error,
    and the decoding of those bytes by [json.Unmarshal]. *)
Record ResponseBody := {
  Bytes : string;
  ReadError : option string;
  Json : Unmarshalled;
}.

Record Response := {
  StatusCode : Z;
  Body : ResponseBody;
}.

(** An outgoing request. [Payload] is the map marshalled under ["data"] as
    the body of a POST, [None] for a request without body. *)
Record Request := {
  Method : string;
  URL : string;
  Header : list (string * string);
  Payload : option Doc;
}.

(** [HTTPClient.Do]: a response or the error of the round trip. *)
Record http_Client := {
  Do : Request → Response + string;
}.

Record VaultClient := {
  Address : string;
  Token : string;
  HTTPClient : http_Client;
}.

Record KvKeysResource := {
  client : VaultClient;
}.

Record KvKeysResourceModel := {
  ID : string;
  Mount : string;
  Path : string;
  Keys : Doc;
}.

Definition StatusOK : Z := 200.
Definition StatusNoContent : Z := 204.
Definition StatusNotFound : Z := 404.

(** ** Effects of a handler *)

Record Diagnostic := {
  Summary : string;
  Detail : string;
}.

Inductive LogLevel := Info | Warn.

(** What a handler leaves in [resp.State]. *)
Inductive StateSlot :=
  | StateUntouched
  | StateSet (m : KvKeysResourceModel)
  | StateRemoved.

(** Everything a handler does besides returning: the error diagnostics it
    appends, its last action on the state, the messages it logs (without
    their structured fields) and the requests it hands to the client. *)
Record Effects := {
  Diagnostics : list Diagnostic;
  State : StateSlot;
  Log : list (LogLevel * string);
  Sent : list Request;
}.

Definition init : Effects :=
  {| Diagnostics := []; State := StateUntouched; Log := []; Sent := [] |}.

(** A computation either goes on with a value or has executed [return]. *)
Inductive Flow (A : Type) :=
  | Next (a : A)
  | Returned.
Arguments Next {A} a.
Arguments Returned {A}.

Definition Handler (A : Type) : Type := Effects → Flow A * Effects.

#[global] Instance Handler_ret : MRet Handler := λ A a e, (Next a, e).

#[global] Instance Handler_bind : MBind Handler := λ A B k c e,
  match c e with
  | (Next a, e') => k a e'
  | (Returned, e') => (Returned, e')
  end.

Definition return_ {A} : Handler A := λ e, (Returned, e).

Definition AddError (summary detail : string) : Handler unit := λ e,
  (Next (),
   {| Diagnostics := Diagnostics e ++ [{| Summary := summary; Detail := detail |}];
      State := State e; Log := Log e; Sent := Sent e |}).

Definition tflog (level : LogLevel) (msg : string) : Handler unit := λ e,
  (Next (),
   {| Diagnostics := Diagnostics e; State := State e;
      Log := Log e ++ [(level, msg)]; Sent := Sent e |}).

Definition State_Set (m : KvKeysResourceModel) : Handler unit := λ e,
  (Next (),
   {| Diagnostics := Diagnostics e; State := StateSet m;
      Log := Log e; Sent := Sent e |}).

Definition State_RemoveResource : Handler unit := λ e,
  (Next (),
   {| Diagnostics := Diagnostics e; State := StateRemoved;
      Log := Log e; Sent := Sent e |}).

Definition HTTPClient_Do (c : VaultClient) (req : Request) : Handler (Response + string) := λ e,
  (Next (Do (HTTPClient c) req),
   {| Diagnostics := Diagnostics e; State := State e;
      Log := Log e; Sent := Sent e ++ [req] |}).

Definition run {A} (h : Handler A) : Effects := (h init).2.
Definition eval {A} (h : Handler A) : Flow A := (h init).1.

(** The documents a handler submits for storing, in order. *)
Definition stores (e : Effects) : list Doc := omap Payload (Sent e).

(** The remote document after a handler that fetched [D]: the store is a
    full replace, so it is the last document submitted, [D] if none was. *)
Definition document_after (D : Doc) (e : Effects) : Doc :=
  default D (last (stores e)).

(** [e] with the requests [reqs] sent after its own. *)
Definition add_sent (e : Effects) (reqs : list Request) : Effects :=
  {| Diagnostics := Diagnostics e; State := State e;
     Log := Log e; Sent := Sent e ++ reqs |}.

(** [url.Parse], of the Go library: the error it returns for a URL, if any. *)
Class UrlParser := url_Parse_error : string → option string.

(** ** The resource *)

Section resource.
Context `{!UrlParser}.

(** [http.NewRequest(method, url, body)] as far as the resource looks at it:
    the error it returns, if any. The resource passes the methods GET and
    POST, which are valid, so the only error is that of parsing the URL. *)
Definition http_NewRequest (method url : string) : option string :=
  url_Parse_error url.

(** Body of [for k, v := range result.Data.Data { data[k] = fmt.Sprintf("%v", v) }]. *)
Definition stringify_step (k : string) (v : JVal) (data : Doc) : Doc :=
  <[k:=format_v v]> data.

Definition readSecret (r : KvKeysResource) (mount path : string) : Handler (Doc + string) :=
  let url := Address (client r) +:+ "/v1/" +:+ mount +:+ "/data/" +:+ path in
  match http_NewRequest "GET" url with
  | Some err => mret (inr ("failed to create request: " +:+ err))
  | None =>
    let req := {| Method := "GET"; URL := url;
                  Header := [("X-Vault-Token", Token (client r));
                             ("X-Vault-Request", "true")];
                  Payload := None |} in
    res ← HTTPClient_Do (client r) req;
    match res with
    | inr err => mret (inr ("failed to send request: " +:+ err))
    | inl resp =>
      let body := Bytes (Body resp) in
      match ReadError (Body resp) with
      | Some err => mret (inr ("failed to read response: " +:+ err))
      | None =>
        if decide (StatusCode resp = StatusNotFound) then mret (inl ∅)
        else if decide (StatusCode resp ≠ StatusOK) then
          mret (inr ("vault returned status " +:+ pretty (StatusCode resp)
                     +:+ ": " +:+ body))
        else
          match Json (Body resp) with
          | UnmarshalError err => mret (inr ("failed to parse response: " +:+ err))
          | DataNil => mret (inl ∅)
          | DataMap d => mret (inl (map_fold stringify_step ∅ d))
          end
      end
    end
  end.

(** The fetch of [mount/path] reached the server and got [resp]: [readSecret]
    handed one request to the client, which answered it with [resp]. *)
Definition fetch_answered (r : KvKeysResource) (mount path : string) (resp : Response) : Prop :=
  ∃ req, Sent (run (readSecret r mount path)) = [req]
         ∧ Do (HTTPClient (client r)) req = inl resp.

(** [json.Marshal] of a [map[string]interface{}] holding a
    [map[string]string] returns no error; the request carries [data]. *)
Definition writeSecret (r : KvKeysResource) (mount path : string) (data : Doc)
  : Handler (option string) :=
  let url := Address (client r) +:+ "/v1/" +:+ mount +:+ "/data/" +:+ path in
  match http_NewRequest "POST" url with
  | Some err => mret (Some ("failed to create request: " +:+ err))
  | None =>
    let req := {| Method := "POST"; URL := url;
                  Header := [("X-Vault-Token", Token (client r));
                             ("Content-Type", "application/json")];
                  Payload := Some data |} in
    res ← HTTPClient_Do (client r) req;
    match res with
    | inr err => mret (Some ("failed to send request: " +:+ err))
    | inl resp =>
      if decide (StatusCode resp ≠ StatusOK ∧ StatusCode resp ≠ StatusNoContent) then
        let respBody := Bytes (Body resp) in
        mret (Some ("vault returned status " +:+ pretty (StatusCode resp)
                    +:+ ": " +:+ respBody))
      else mret None
    end
  end.

Definition with_ID (m : KvKeysResourceModel) (id : string) : KvKeysResourceModel :=
  {| ID := id; Mount := Mount m; Path := Path m; Keys := Keys m |}.

Definition with_Keys (m : KvKeysResourceModel) (keys : Doc) : KvKeysResourceModel :=
  {| ID := ID m; Mount := Mount m; Path := Path m; Keys := keys |}.

(** The handlers receive the plan and the prior state already decoded
    ([req.Plan.Get], [req.State.Get] and [ElementsAs] without error). *)
Definition Create (r : KvKeysResource) (plan : KvKeysResourceModel) : Handler unit :=
  let mount := Mount plan in
  let path := Path plan in
  let planKeys := Keys plan in
  tflog Info "Creating keys in Vault";;
  res ← readSecret r mount path;
  match res with
  | inr err =>
    AddError "Failed to Read Existing Secret"
             ("Could not read " +:+ mount +:+ "/" +:+ path +:+ ": " +:+ err);;
    return_
  | inl existingData =>
    (if negb (keysMatch existingData planKeys) then
       let merged := mergeKeys existingData planKeys in
       werr ← writeSecret r mount path merged;
       match werr with
       | Some err =>
         AddError "Failed to Write Secret"
                  ("Could not write to " +:+ mount +:+ "/" +:+ path +:+ ": " +:+ err);;
         return_
       | None => mret ()
       end
     else
       tflog Info "All keys already exist with the same values, skipping write");;
    let plan := with_ID plan (mount +:+ "/" +:+ path) in
    State_Set plan
  end.

Definition Read (r : KvKeysResource) (state : KvKeysResourceModel) : Handler unit :=
  let mount := Mount state in
  let path := Path state in
  let stateKeys := Keys state in
  tflog Info "Reading keys from Vault";;
  res ← readSecret r mount path;
  match res with
  | inr err =>
    tflog Warn "Could not read secret from Vault, removing from state";;
    State_RemoveResource;;
    return_
  | inl existingData =>
    let currentKeys := map_fold (observe_step existingData) ∅ stateKeys in
    if decide (size currentKeys = 0) then
      tflog Warn "None of the managed keys exist in Vault, removing from state";;
      State_RemoveResource;;
      return_
    else
      let keysMapValue := currentKeys in
      let state := with_Keys state keysMapValue in
      State_Set state
  end.

Definition Update (r : KvKeysResource) (plan state : KvKeysResourceModel) : Handler unit :=
  let mount := Mount plan in
  let path := Path plan in
  let planKeys := Keys plan in
  let stateKeys := Keys state in
  tflog Info "Updating keys in Vault";;
  res ← readSecret r mount path;
  match res with
  | inr err =>
    AddError "Failed to Read Existing Secret"
             ("Could not read " +:+ mount +:+ "/" +:+ path +:+ ": " +:+ err);;
    return_
  | inl existingData =>
    let existingData := map_fold (drop_unplanned_step planKeys) existingData stateKeys in
    let merged := mergeKeys existingData planKeys in
    werr ← writeSecret r mount path merged;
    match werr with
    | Some err =>
      AddError "Failed to Write Secret"
               ("Could not write to " +:+ mount +:+ "/" +:+ path +:+ ": " +:+ err);;
      return_
    | None =>
      let plan := with_ID plan (mount +:+ "/" +:+ path) in
      State_Set plan
    end
  end.

Definition Delete (r : KvKeysResource) (state : KvKeysResourceModel) : Handler unit :=
  let mount := Mount state in
  let path := Path state in
  let stateKeys := Keys state in
  tflog Info "Deleting keys from Vault";;
  res ← readSecret r mount path;
  match res with
  | inr err =>
    tflog Warn "Could not read secret during delete, assuming already cleaned up";;
    return_
  | inl existingData =>
    let existingData := map_fold drop_step existingData stateKeys in
    werr ← writeSecret r mount path existingData;
    match werr with
    | Some err =>
      AddError "Failed to Write Secret After Delete"
               ("Could not update " +:+ mount +:+ "/" +:+ path
                +:+ " after removing keys: " +:+ err);;
      return_
    | None => mret ()
    end
  end.

(** [strings.Index(id, "/")] is [String.index 0 "/" id], [None] standing
    for a negative index. *)
Definition ImportState (r : KvKeysResource) (id : string) : Handler unit :=
  match String.index 0 "/" id with
  | None =>
    AddError "Invalid Import ID"
             "Import ID must be in the format 'mount/path' (e.g., 'app_envs/my-service/test').";;
    return_
  | Some idx =>
    let mount := String.substring 0 idx id in
    let path := String.substring (idx + 1) (String.length id - (idx + 1)) id in
    if decide (mount = "" ∨ path = "") then
      AddError "Invalid Import ID"
               "Both mount and path must be non-empty. Format: 'mount/path'.";;
      return_
    else
      res ← readSecret r mount path;
      match res with
      | inr err =>
        AddError "Failed to Read Secret During Import"
                 ("Could not read " +:+ mount +:+ "/" +:+ path +:+ ": " +:+ err);;
        return_
      | inl existingData =>
        let keysMapValue := existingData in
        let state := {| ID := id; Mount := mount; Path := path; Keys := keysMapValue |} in
        State_Set state
      end
  end.
End resource.

(** ** The key list written to the log *)

(** Body of [for k := range m { keys = append(keys, k) }]. *)
Definition collect_key_step (k _v : string) (keys : list string) : list string :=
  keys ++ [k].

(** Go's [<=] on strings, the lexicographic order of their bytes. *)
Definition string_le (a b : string) : Prop := String.leb a b = true.

#[global] Instance string_le_dec : RelDecision string_le :=
  λ a b, decide (String.leb a b = true).

(** [sort.Strings(keys)]: [keys] in ascending order. *)
Definition sort_Strings (keys : list string) : list string :=
  merge_sort string_le keys.

(** [strings.Join(keys, sep)] *)
Definition strings_Join (keys : list string) (sep : string) : string :=
  String.concat sep keys.

Definition keysOnly (m : Doc) : string :=
  let keys := map_fold collect_key_step [] m in
  let keys := sort_Strings keys in
  strings_Join keys ", ".

(** ** Wiring of the resource *)

(** [req.ProviderData], an [interface{}]: nil, a [*VaultClient], or a value
    of some other type. *)
Inductive ProviderData :=
  | NoProviderData
  | VaultClientData (c : VaultClient)
  | OtherProviderData.

(** [Configure] of the resource. The receiver is given as the resource with
    its client set, or [None] while [r.client] is nil; the result is the
    diagnostics added and the receiver afterwards. *)
Definition Configure (r : option KvKeysResource) (req_ProviderData : ProviderData)
  : list Diagnostic * option KvKeysResource :=
  match req_ProviderData with
  | NoProviderData => ([], r)
  | OtherProviderData =>
    ([{| Summary := "Unexpected Resource Configure Type";
         Detail := "Expected *VaultClient, got something else." |}], r)
  | VaultClientData client => ([], Some {| client := client |})
  end.

(** ** The provider ([provider.go]) *)

(** A [types.String] of the plugin framework: null, unknown or known. *)
Inductive types_String :=
  | StringNull
  | StringUnknown
  | StringValue (s : string).

Definition IsNull (v : types_String) : bool :=
  match v with StringNull => true | _ => false end.

Definition IsUnknown (v : types_String) : bool :=
  match v with StringUnknown => true | _ => false end.

(** [ValueString]: the empty string when null or unknown. *)
Definition ValueString (v : types_String) : string :=
  match v with StringValue s => s | _ => "" end.

Module VaultPatchProviderModel.
Record t := {
  Address : types_String;
  RoleID : types_String;
  SecretID : types_String;
}.
End VaultPatchProviderModel.

(** What [json.Unmarshal(respBody, &result)] leaves in
    [result.Auth.ClientToken]; the empty string when the field is absent. *)
Inductive LoginUnmarshalled :=
  | LoginUnmarshalError (err : string)
  | ClientToken (token : string).

Record LoginResponseBody := {
  LoginBytes : string;
  LoginReadError : option string;
  LoginJson : LoginUnmarshalled;
}.

Record LoginResponse := {
  LoginStatusCode : Z;
  LoginBody : LoginResponseBody;
}.

(** The network as the provider uses it: [http.Post(url, contentType, body)]
    with the map marshalled as body, and the client that
    [&http.Client{Timeout: 30 * time.Second}] is. *)
Class Network := {
  http_Post : string → string → Doc → LoginResponse + string;
  http_Client_30s : http_Client;
}.

Record ConfigureResponse := {
  ConfigureDiagnostics : list Diagnostic;
  DataSourceData : option VaultClient;
  ResourceData : option VaultClient;
}.

Module VaultPatchProvider.
Section provider.
Context `{!Network}.

(** [json.Marshal] of a [map[string]string] returns no error. *)
Definition authenticateAppRole (address roleID secretID : string) : string + string :=
  let loginURL := address +:+ "/v1/auth/approle/login" in
  let payload : Doc := <["secret_id" := secretID]> (<["role_id" := roleID]> ∅) in
  match http_Post loginURL "application/json" payload with
  | inr err => inr ("failed to send login request: " +:+ err)
  | inl resp =>
    let respBody := LoginBytes (LoginBody resp) in
    match LoginReadError (LoginBody resp) with
    | Some err => inr ("failed to read login response: " +:+ err)
    | None =>
      if decide (LoginStatusCode resp ≠ StatusOK) then
        inr ("vault returned status " +:+ pretty (LoginStatusCode resp)
             +:+ ": " +:+ respBody)
      else
        match LoginJson (LoginBody resp) with
        | LoginUnmarshalError err => inr ("failed to parse login response: " +:+ err)
        | ClientToken token =>
          if decide (token = "") then inr "vault returned empty client token"
          else inl token
        end
    end
  end.

(** [resp.Diagnostics.AddError(summary, detail); return]: the response with
    that error and no client. *)
Definition failed (summary detail : string) : ConfigureResponse :=
  {| ConfigureDiagnostics := [{| Summary := summary; Detail := detail |}];
     DataSourceData := None; ResourceData := None |}.

(** [Configure] of the provider, on the decoded configuration
    ([req.Config.Get] without error). *)
Definition Configure (config : VaultPatchProviderModel.t) : ConfigureResponse :=
  if IsUnknown (VaultPatchProviderModel.Address config)
     || IsNull (VaultPatchProviderModel.Address config) then
    failed "Missing Vault Address" "The 'address' attribute must be set."
  else if IsUnknown (VaultPatchProviderModel.RoleID config)
          || IsNull (VaultPatchProviderModel.RoleID config) then
    failed "Missing Role ID" "The 'role_id' attribute must be set."
  else if IsUnknown (VaultPatchProviderModel.SecretID config)
          || IsNull (VaultPatchProviderModel.SecretID config) then
    failed "Missing Secret ID" "The 'secret_id' attribute must be set."
  else
    let address := ValueString (VaultPatchProviderModel.Address config) in
    let roleID := ValueString (VaultPatchProviderModel.RoleID config) in
    let secretID := ValueString (VaultPatchProviderModel.SecretID config) in
    match authenticateAppRole address roleID secretID with
    | inr err =>
      failed "Vault Authentication Failed"
             ("Could not authenticate with Vault at " +:+ address +:+ ": " +:+ err)
    | inl token =>
      let client := {| Address := address; Token := token;
                       HTTPClient := http_Client_30s |} in
      {| ConfigureDiagnostics := [];
         DataSourceData := Some client; ResourceData := Some client |}
    end.
End provider.
End VaultPatchProvider.

(** ** Concrete clients

    Clients with a scripted server, on which the handlers can be run. *)

(** Every URL parses. *)
Definition parses_all : UrlParser := λ _, None.

(** A server that answers a GET with [status] and a body decoding to [json],
    and a POST with [post_status]. *)
Definition scripted (status : Z) (json : Unmarshalled) (post_status : Z) : http_Client :=
  {| Do := λ req,
       if decide (Method req = "GET") then
         inl {| StatusCode := status;
                Body := {| Bytes := "{...}"; ReadError := None; Json := json |} |}
       else
         inl {| StatusCode := post_status;
                Body := {| Bytes := "{...}"; ReadError := None; Json := DataNil |} |} |}.

(** A server that cannot be reached. *)
Definition unreachable : http_Client :=
  {| Do := λ _, inr "dial tcp: connection refused" |}.

(** A server that answers a GET like [scripted] and drops every POST. *)
Definition read_only (status : Z) (json : Unmarshalled) : http_Client :=
  {| Do := λ req,
       if decide (Method req = "GET") then Do (scripted status json 200) req
       else inr "write: broken pipe" |}.

Definition resource_on (c : http_Client) : KvKeysResource :=
  {| client := {| Address := "https://vault.example.com"; Token := "s.token";
                  HTTPClient := c |} |}.

(** A reachable Vault holding [d] at every path; one with nothing at any
    path; one that is down; one that serves [d] and refuses to write. *)
Definition vault_holding (d : gmap string JVal) : KvKeysResource :=
  resource_on (scripted 200 (DataMap d) 200).
Definition vault_without_secret : KvKeysResource :=
  resource_on (scripted 404 DataNil 200).
Definition vault_down : KvKeysResource :=
  resource_on unreachable.
Definition vault_read_only (d : gmap string JVal) : KvKeysResource :=
  resource_on (read_only 200 (DataMap d)).

Definition model_of (keys : Doc) : KvKeysResourceModel :=
  {| ID := "app/my-service/test"; Mount := "app"; Path := "my-service/test";
     Keys := keys |}.

(** A network whose login endpoint answers with [status] and a body decoding
    to [json], and whose clients reach a Vault with nothing stored. *)
Definition login_answering (status : Z) (json : LoginUnmarshalled) : Network :=
  {| http_Post := λ _ _ _,
       inl {| LoginStatusCode := status;
              LoginBody := {| LoginBytes := "{...}"; LoginReadError := None;
                              LoginJson := json |} |};
     http_Client_30s := scripted 404 DataNil 200 |}.

Definition config_of (address role_id secret_id : types_String) : VaultPatchProviderModel.t :=
  {| VaultPatchProviderModel.Address := address;
     VaultPatchProviderModel.RoleID := role_id;
     VaultPatchProviderModel.SecretID := secret_id |}.

(** ** Lookups of the loops' results *)

Section loops.
Implicit Types (D P M acc : Doc) (k : string).

Lemma assign_fold_lookup acc M k :
  map_fold assign_step acc M !! k
  = match M !! k with Some v => Some v | None => acc !! k end.
Proof.
  apply (map_fold_weak_ind
           (λ r m, r !! k = match m !! k with Some v => Some v | None => acc !! k end)).
  - by rewrite lookup_empty.
  - intros i x m r Hi IH. unfold assign_step.
    destruct (decide (i = k)) as [->|Hne].
    + by rewrite !lookup_insert_eq.
    + by rewrite !lookup_insert_ne.
Qed.

Lemma mergeKeys_lookup D P k :
  mergeKeys D P !! k
  = match P !! k with Some v => Some v | None => D !! k end.
Proof.
  unfold mergeKeys. rewrite !assign_fold_lookup, lookup_empty.
  by destruct (P !! k), (D !! k).
Qed.

Lemma mergeKeys_union D P : mergeKeys D P = P ∪ D.
Proof.
  apply map_eq; intros k. rewrite mergeKeys_lookup, lookup_union.
  by destruct (P !! k), (D !! k).
Qed.

Lemma keysMatch_spec D P :
  keysMatch D P = true ↔ ∀ k v, P !! k = Some v → D !! k = Some v.
Proof.
  unfold keysMatch.
  apply (map_fold_weak_ind
           (λ (r : bool) m, r = true ↔ ∀ k v, m !! k = Some v → D !! k = Some v)).
  - split; [intros _ k v; by rewrite lookup_empty | done].
  - intros i x m r Hi IH. unfold match_step. split.
    + intros Hr k v. destruct (D !! i) as [ev|] eqn:HD; [|done].
      destruct (decide (ev = x)) as [->|]; [|done].
      destruct (decide (i = k)) as [->|Hne].
      * rewrite lookup_insert_eq. by intros [= <-].
      * rewrite lookup_insert_ne by done. by apply IH.
    + intros Hall. rewrite (Hall i x) by apply lookup_insert_eq.
      rewrite decide_True by done. apply IH. intros k v Hk.
      apply Hall. rewrite lookup_insert_ne; [done|]. intros ->. congruence.
Qed.

Lemma drop_unplanned_fold_lookup P M acc k :
  map_fold (drop_unplanned_step P) acc M !! k
  = match M !! k, P !! k with
    | Some _, None => None
    | _, _ => acc !! k
    end.
Proof.
  apply (map_fold_weak_ind
           (λ r m, r !! k = match m !! k, P !! k with
                            | Some _, None => None
                            | _, _ => acc !! k
                            end)).
  - by rewrite lookup_empty.
  - intros i x m r Hi IH. unfold drop_unplanned_step.
    destruct (decide (i = k)) as [->|Hne].
    + rewrite lookup_insert_eq. rewrite Hi in IH.
      destruct (P !! k); [done|]. by rewrite lookup_delete_eq.
    + rewrite lookup_insert_ne by done.
      destruct (P !! i); [done|]. by rewrite lookup_delete_ne.
Qed.

Lemma drop_fold_lookup M acc k :
  map_fold drop_step acc M !! k
  = match M !! k with Some _ => None | None => acc !! k end.
Proof.
  apply (map_fold_weak_ind
           (λ r m, r !! k = match m !! k with Some _ => None | None => acc !! k end)).
  - by rewrite lookup_empty.
  - intros i x m r Hi IH. unfold drop_step.
    destruct (decide (i = k)) as [->|Hne].
    + by rewrite lookup_insert_eq, lookup_delete_eq.
    + by rewrite lookup_insert_ne, lookup_delete_ne.
Qed.

Lemma observe_fold_lookup D M k :
  map_fold (observe_step D) ∅ M !! k
  = match M !! k with Some _ => D !! k | None => None end.
Proof.
  apply (map_fold_weak_ind
           (λ r m, r !! k = match m !! k with Some _ => D !! k | None => None end)).
  - by rewrite !lookup_empty.
  - intros i x m r Hi IH. unfold observe_step.
    destruct (decide (i = k)) as [->|Hne].
    + rewrite lookup_insert_eq. rewrite Hi in IH.
      destruct (D !! k); [by rewrite lookup_insert_eq | done].
    + rewrite lookup_insert_ne by done.
      destruct (D !! i); [by rewrite lookup_insert_ne | done].
Qed.
End loops.


(** ** Iteration order

    Go leaves the order of [range] over a map unspecified. Each loop body
    above commutes with itself on distinct keys, so the loops give the same
    result in every order; [map_fold] fixes one. *)

Lemma range_order_irrelevant {A B : Type} (f : string → A → B → B) (b : B)
    (m : gmap string A) (order : list (string * A)) :
  (∀ k1 v1 k2 v2 acc, k1 ≠ k2 → f k1 v1 (f k2 v2 acc) = f k2 v2 (f k1 v1 acc)) →
  order ≡ₚ map_to_list m →
  foldr (uncurry f) b order = map_fold f b m.
Proof.
  intros Hcomm Hperm. rewrite map_fold_foldr.
  assert (Hnd : NoDup order.*1).
  { rewrite Hperm. apply NoDup_fst_map_to_list. }
  revert Hnd.
  generalize dependent (map_to_list m). intros l' Hperm. clear m.
  induction Hperm as [|x l1 l2 _ IH|[k1 v1] [k2 v2] l|l1 l2 l3 H12 IH1 _ IH2];
    intros Hnd.
  - done.
  - simpl. f_equal. apply IH. by apply NoDup_cons_1_2 in Hnd.
  - simpl. apply Hcomm. apply NoDup_cons_1_1 in Hnd. set_solver.
  - rewrite IH1 by done. apply IH2. by rewrite <-H12.
Qed.

Lemma assign_step_comm k1 v1 k2 v2 (acc : Doc) :
  k1 ≠ k2 → assign_step k1 v1 (assign_step k2 v2 acc) = assign_step k2 v2 (assign_step k1 v1 acc).
Proof. intros. unfold assign_step. by apply insert_insert_ne. Qed.

Lemma drop_step_comm k1 v1 k2 v2 (acc : Doc) :
  drop_step k1 v1 (drop_step k2 v2 acc) = drop_step k2 v2 (drop_step k1 v1 acc).
Proof. unfold drop_step. apply delete_delete. Qed.

Lemma drop_unplanned_step_comm (P : Doc) k1 v1 k2 v2 (acc : Doc) :
  drop_unplanned_step P k1 v1 (drop_unplanned_step P k2 v2 acc)
  = drop_unplanned_step P k2 v2 (drop_unplanned_step P k1 v1 acc).
Proof.
  unfold drop_unplanned_step. destruct (P !! k1), (P !! k2); try done.
  apply delete_delete.
Qed.

Lemma observe_step_comm (D : Doc) k1 v1 k2 v2 (acc : Doc) :
  k1 ≠ k2 →
  observe_step D k1 v1 (observe_step D k2 v2 acc)
  = observe_step D k2 v2 (observe_step D k1 v1 acc).
Proof.
  intros. unfold observe_step. destruct (D !! k1), (D !! k2); try done.
  by apply insert_insert_ne.
Qed.

Lemma match_step_comm (D : Doc) k1 v1 k2 v2 (rest : bool) :
  match_step D k1 v1 (match_step D k2 v2 rest)
  = match_step D k2 v2 (match_step D k1 v1 rest).
Proof.
  unfold match_step. destruct (D !! k1), (D !! k2); try done;
    repeat case_decide; done.
Qed.

(** The loops of the resource in an arbitrary order of iteration. *)
Lemma mergeKeys_any_order (D P : Doc) (o1 o2 : list (string * string)) :
  o1 ≡ₚ map_to_list D →
  o2 ≡ₚ map_to_list P →
  foldr (uncurry assign_step) (foldr (uncurry assign_step) ∅ o1) o2 = mergeKeys D P.
Proof.
  intros H1 H2. unfold mergeKeys.
  rewrite (range_order_irrelevant assign_step ∅ D o1) by (done || apply assign_step_comm).
  apply range_order_irrelevant; [apply assign_step_comm | done].
Qed.

Lemma keysMatch_any_order (D P : Doc) (o : list (string * string)) :
  o ≡ₚ map_to_list P →
  foldr (uncurry (match_step D)) true o = keysMatch D P.
Proof.
  intros Ho. apply range_order_irrelevant; [|done].
  intros. apply match_step_comm.
Qed.

Lemma handler_loops_any_order (D P S : Doc) (o : list (string * string)) :
  o ≡ₚ map_to_list S →
  foldr (uncurry (drop_unplanned_step P)) D o = map_fold (drop_unplanned_step P) D S
  ∧ foldr (uncurry drop_step) D o = map_fold drop_step D S
  ∧ foldr (uncurry (observe_step D)) ∅ o = map_fold (observe_step D) ∅ S.
Proof.
  intros Ho. split_and!; (apply range_order_irrelevant; [|done]); intros.
  - apply drop_unplanned_step_comm.
  - apply drop_step_comm.
  - by apply observe_step_comm.
Qed.

(** ** The two calls to the server *)

Section transport.
Context `{!UrlParser}.
Implicit Types (r : KvKeysResource) (e : Effects) (D : Doc).

Lemma add_sent_nil e : add_sent e [] = e.
Proof. destruct e. unfold add_sent; simpl. by rewrite app_nil_r. Qed.

(** [readSecret] always comes back with a value, which does not depend on
    the effects so far, and only adds requests to them. *)
Lemma readSecret_run r mount path e :
  ∃ res, readSecret r mount path e
         = (Next res, add_sent e (Sent (run (readSecret r mount path)))).
Proof.
  unfold run, readSecret, http_NewRequest.
  destruct (url_Parse_error _); [eexists; simpl; by rewrite add_sent_nil|].
  unfold mbind, Handler_bind, HTTPClient_Do, mret, Handler_ret; simpl.
  repeat (case_match; simpl); eexists; reflexivity.
Qed.

Lemma readSecret_eval r mount path e res :
  eval (readSecret r mount path) = Next res →
  readSecret r mount path e
  = (Next res, add_sent e (Sent (run (readSecret r mount path)))).
Proof.
  intros Hev. destruct (readSecret_run r mount path e) as [res' Hrun].
  destruct (readSecret_run r mount path init) as [res0 Hrun0].
  unfold eval in Hev. rewrite Hrun0 in Hev. simpl in Hev. injection Hev as ->.
  rewrite Hrun. f_equal. f_equal.
  revert Hrun Hrun0. unfold readSecret, http_NewRequest.
  destruct (url_Parse_error _); [unfold mret, Handler_ret; congruence|].
  unfold mbind, Handler_bind, HTTPClient_Do, mret, Handler_ret; simpl.
  repeat (case_match; simpl); congruence.
Qed.
Lemma writeSecret_run r mount path data e :
  ∃ werr, writeSecret r mount path data e
          = (Next werr, add_sent e (Sent (run (writeSecret r mount path data)))).
Proof.
  unfold run, writeSecret, http_NewRequest.
  destruct (url_Parse_error _); [eexists; simpl; by rewrite add_sent_nil|].
  unfold mbind, Handler_bind, HTTPClient_Do, mret, Handler_ret; simpl.
  repeat (case_match; simpl); eexists; reflexivity.
Qed.

Lemma writeSecret_eval r mount path data e werr :
  eval (writeSecret r mount path data) = Next werr →
  writeSecret r mount path data e
  = (Next werr, add_sent e (Sent (run (writeSecret r mount path data)))).
Proof.
  intros Hev. destruct (writeSecret_run r mount path data e) as [res' Hrun].
  destruct (writeSecret_run r mount path data init) as [res0 Hrun0].
  unfold eval in Hev. rewrite Hrun0 in Hev. simpl in Hev. injection Hev as ->.
  rewrite Hrun. f_equal. f_equal.
  revert Hrun Hrun0. unfold writeSecret, http_NewRequest.
  destruct (url_Parse_error _); [unfold mret, Handler_ret; congruence|].
  unfold mbind, Handler_bind, HTTPClient_Do, mret, Handler_ret; simpl.
  repeat (case_match; simpl); congruence.
Qed.

Lemma writeSecret_total r mount path data :
  ∃ werr, eval (writeSecret r mount path data) = Next werr.
Proof.
  destruct (writeSecret_run r mount path data init) as [werr Hrun].
  exists werr. unfold eval. by rewrite Hrun.
Qed.

Lemma readSecret_total r mount path :
  ∃ res, eval (readSecret r mount path) = Next res.
Proof.
  destruct (readSecret_run r mount path init) as [res Hrun].
  exists res. unfold eval. by rewrite Hrun.
Qed.

(** A fetch submits no document. *)
Lemma readSecret_stores r mount path :
  stores (run (readSecret r mount path)) = [].
Proof.
  unfold stores, run, readSecret, http_NewRequest.
  destruct (url_Parse_error _); [done|].
  unfold mbind, Handler_bind, HTTPClient_Do, mret, Handler_ret; simpl.
  repeat (case_match; simpl); done.
Qed.

(** The URL of a fetch that came back with a document parses. *)
Lemma readSecret_ok_url r mount path D :
  eval (readSecret r mount path) = Next (inl D) →
  url_Parse_error (Address (client r) +:+ "/v1/" +:+ mount +:+ "/data/" +:+ path) = None.
Proof.
  unfold eval, readSecret, http_NewRequest.
  destruct (url_Parse_error _); [|done].
  unfold mret, Handler_ret; simpl. congruence.
Qed.

(** After such a fetch, a store hands exactly one request to the client and
    it carries the document. *)
Lemma writeSecret_stores r mount path D data :
  eval (readSecret r mount path) = Next (inl D) →
  stores (run (writeSecret r mount path data)) = [data].
Proof.
  intros Hurl%readSecret_ok_url.
  unfold stores, run, writeSecret, http_NewRequest. rewrite Hurl.
  unfold mbind, Handler_bind, HTTPClient_Do, mret, Handler_ret; simpl.
  repeat (case_match; simpl); done.
Qed.

(** A 404 is fetched as the empty document, not as an error. *)
Lemma fetch_not_found r mount path resp :
  fetch_answered r mount path resp →
  StatusCode resp = StatusNotFound →
  ReadError (Body resp) = None →
  eval (readSecret r mount path) = Next (inl ∅).
Proof.
  intros (req & Hsent & Hdo) Hst Herr. revert Hsent.
  unfold eval, run, readSecret, http_NewRequest.
  destruct (url_Parse_error _); [done|].
  unfold mbind, Handler_bind, HTTPClient_Do, mret, Handler_ret; simpl.
  intros Hsent.
  match goal with |- context [Do _ ?q] => assert (q = req) as -> end.
  { repeat (case_match; simpl in * ); congruence. }
  rewrite Hdo, Herr. by rewrite decide_True.
Qed.

(** A 200 with data is fetched as that data, each value formatted. *)
Lemma fetch_data r mount path resp d :
  fetch_answered r mount path resp →
  StatusCode resp = StatusOK →
  ReadError (Body resp) = None →
  Json (Body resp) = DataMap d →
  eval (readSecret r mount path) = Next (inl (map_fold stringify_step ∅ d)).
Proof.
  intros (req & Hsent & Hdo) Hst Herr Hjson. revert Hsent.
  unfold eval, run, readSecret, http_NewRequest.
  destruct (url_Parse_error _); [done|].
  unfold mbind, Handler_bind, HTTPClient_Do, mret, Handler_ret; simpl.
  intros Hsent.
  match goal with |- context [Do _ ?q] => assert (q = req) as -> end.
  { repeat (case_match; simpl in * ); congruence. }
  rewrite Hdo, Herr, Hjson, Hst. done.
Qed.

(** Values that are JSON strings come through the formatting as they are:
    a secret whose values are all strings is fetched verbatim. *)
Lemma stringify_strings D :
  map_fold stringify_step ∅ (JString <$> D) = D.
Proof.
  rewrite map_fold_fmap.
  apply (map_fold_weak_ind (λ (acc : Doc) (m : Doc), acc = m)); [done|].
  intros k v m acc _ ->. done.
Qed.

Lemma fetch_string_document r mount path resp D :
  fetch_answered r mount path resp →
  StatusCode resp = StatusOK →
  ReadError (Body resp) = None →
  Json (Body resp) = DataMap (JString <$> D) →
  eval (readSecret r mount path) = Next (inl D).
Proof.
  intros Hans Hst Herr Hjson.
  rewrite (fetch_data _ _ _ _ _ Hans Hst Herr Hjson). by rewrite stringify_strings.
Qed.
End transport.

(** ** The handlers, case by case *)

Ltac handler_steps :=
  unfold run, eval, mbind, Handler_bind, mret, Handler_ret, tflog, AddError,
    State_Set, State_RemoveResource, return_; simpl.

Section handlers.
Context `{!UrlParser}.
Implicit Types (r : KvKeysResource) (plan state : KvKeysResourceModel) (D : Doc).

Lemma Create_fetch_failed r plan err :
  eval (readSecret r (Mount plan) (Path plan)) = Next (inr err) →
  run (Create r plan)
  = {| Diagnostics :=
         [{| Summary := "Failed to Read Existing Secret";
             Detail := "Could not read " +:+ Mount plan +:+ "/" +:+ Path plan
                       +:+ ": " +:+ err |}];
       State := StateUntouched;
       Log := [(Info, "Creating keys in Vault")];
       Sent := Sent (run (readSecret r (Mount plan) (Path plan))) |}.
Proof.
  intros Hf. unfold Create. handler_steps.
  rewrite (readSecret_eval _ _ _ _ _ Hf). simpl. reflexivity.
Qed.

Lemma Create_unchanged r plan D :
  eval (readSecret r (Mount plan) (Path plan)) = Next (inl D) →
  keysMatch D (Keys plan) = true →
  run (Create r plan)
  = {| Diagnostics := [];
       State := StateSet (with_ID plan (Mount plan +:+ "/" +:+ Path plan));
       Log := [(Info, "Creating keys in Vault");
               (Info, "All keys already exist with the same values, skipping write")];
       Sent := Sent (run (readSecret r (Mount plan) (Path plan))) |}.
Proof.
  intros Hf Hm. unfold Create. handler_steps.
  rewrite (readSecret_eval _ _ _ _ _ Hf). simpl. rewrite Hm. simpl. reflexivity.
Qed.

Lemma Create_changed r plan D :
  eval (readSecret r (Mount plan) (Path plan)) = Next (inl D) →
  keysMatch D (Keys plan) = false →
  let merged := mergeKeys D (Keys plan) in
  let sent := Sent (run (readSecret r (Mount plan) (Path plan)))
              ++ Sent (run (writeSecret r (Mount plan) (Path plan) merged)) in
  run (Create r plan)
  = match eval (writeSecret r (Mount plan) (Path plan) merged) with
    | Next (Some err) =>
      {| Diagnostics :=
           [{| Summary := "Failed to Write Secret";
               Detail := "Could not write to " +:+ Mount plan +:+ "/" +:+ Path plan
                         +:+ ": " +:+ err |}];
         State := StateUntouched;
         Log := [(Info, "Creating keys in Vault")];
         Sent := sent |}
    | _ =>
      {| Diagnostics := [];
         State := StateSet (with_ID plan (Mount plan +:+ "/" +:+ Path plan));
         Log := [(Info, "Creating keys in Vault")];
         Sent := sent |}
    end.
Proof.
  intros Hf Hm merged sent.
  destruct (writeSecret_total r (Mount plan) (Path plan) merged) as [werr Hw].
  rewrite Hw. unfold Create. handler_steps.
  rewrite (readSecret_eval _ _ _ _ _ Hf). simpl. rewrite Hm. simpl.
  fold merged. rewrite (writeSecret_eval _ _ _ _ _ _ Hw).
  destruct werr; reflexivity.
Qed.
Lemma Update_fetch_failed r plan state err :
  eval (readSecret r (Mount plan) (Path plan)) = Next (inr err) →
  run (Update r plan state)
  = {| Diagnostics :=
         [{| Summary := "Failed to Read Existing Secret";
             Detail := "Could not read " +:+ Mount plan +:+ "/" +:+ Path plan
                       +:+ ": " +:+ err |}];
       State := StateUntouched;
       Log := [(Info, "Updating keys in Vault")];
       Sent := Sent (run (readSecret r (Mount plan) (Path plan))) |}.
Proof.
  intros Hf. unfold Update. handler_steps.
  rewrite (readSecret_eval _ _ _ _ _ Hf). simpl. reflexivity.
Qed.

Lemma Update_fetched r plan state D :
  eval (readSecret r (Mount plan) (Path plan)) = Next (inl D) →
  let existingData := map_fold (drop_unplanned_step (Keys plan)) D (Keys state) in
  let merged := mergeKeys existingData (Keys plan) in
  let sent := Sent (run (readSecret r (Mount plan) (Path plan)))
              ++ Sent (run (writeSecret r (Mount plan) (Path plan) merged)) in
  run (Update r plan state)
  = match eval (writeSecret r (Mount plan) (Path plan) merged) with
    | Next (Some err) =>
      {| Diagnostics :=
           [{| Summary := "Failed to Write Secret";
               Detail := "Could not write to " +:+ Mount plan +:+ "/" +:+ Path plan
                         +:+ ": " +:+ err |}];
         State := StateUntouched;
         Log := [(Info, "Updating keys in Vault")];
         Sent := sent |}
    | _ =>
      {| Diagnostics := [];
         State := StateSet (with_ID plan (Mount plan +:+ "/" +:+ Path plan));
         Log := [(Info, "Updating keys in Vault")];
         Sent := sent |}
    end.
Proof.
  intros Hf existingData merged sent.
  destruct (writeSecret_total r (Mount plan) (Path plan) merged) as [werr Hw].
  rewrite Hw. unfold Update. handler_steps.
  rewrite (readSecret_eval _ _ _ _ _ Hf). simpl.
  fold existingData. fold merged. rewrite (writeSecret_eval _ _ _ _ _ _ Hw).
  destruct werr; reflexivity.
Qed.

Lemma Delete_fetch_failed r state err :
  eval (readSecret r (Mount state) (Path state)) = Next (inr err) →
  run (Delete r state)
  = {| Diagnostics := [];
       State := StateUntouched;
       Log := [(Info, "Deleting keys from Vault");
               (Warn, "Could not read secret during delete, assuming already cleaned up")];
       Sent := Sent (run (readSecret r (Mount state) (Path state))) |}.
Proof.
  intros Hf. unfold Delete. handler_steps.
  rewrite (readSecret_eval _ _ _ _ _ Hf). simpl. reflexivity.
Qed.

Lemma Delete_fetched r state D :
  eval (readSecret r (Mount state) (Path state)) = Next (inl D) →
  let existingData := map_fold drop_step D (Keys state) in
  let sent := Sent (run (readSecret r (Mount state) (Path state)))
              ++ Sent (run (writeSecret r (Mount state) (Path state) existingData)) in
  run (Delete r state)
  = match eval (writeSecret r (Mount state) (Path state) existingData) with
    | Next (Some err) =>
      {| Diagnostics :=
           [{| Summary := "Failed to Write Secret After Delete";
               Detail := "Could not update " +:+ Mount state +:+ "/" +:+ Path state
                         +:+ " after removing keys: " +:+ err |}];
         State := StateUntouched;
         Log := [(Info, "Deleting keys from Vault")];
         Sent := sent |}
    | _ =>
      {| Diagnostics := [];
         State := StateUntouched;
         Log := [(Info, "Deleting keys from Vault")];
         Sent := sent |}
    end.
Proof.
  intros Hf existingData sent.
  destruct (writeSecret_total r (Mount state) (Path state) existingData) as [werr Hw].
  rewrite Hw. unfold Delete. handler_steps.
  rewrite (readSecret_eval _ _ _ _ _ Hf). simpl.
  fold existingData. rewrite (writeSecret_eval _ _ _ _ _ _ Hw).
  destruct werr; reflexivity.
Qed.

Lemma Read_fetch_failed r state err :
  eval (readSecret r (Mount state) (Path state)) = Next (inr err) →
  run (Read r state)
  = {| Diagnostics := [];
       State := StateRemoved;
       Log := [(Info, "Reading keys from Vault");
               (Warn, "Could not read secret from Vault, removing from state")];
       Sent := Sent (run (readSecret r (Mount state) (Path state))) |}.
Proof.
  intros Hf. unfold Read. handler_steps.
  rewrite (readSecret_eval _ _ _ _ _ Hf). simpl. reflexivity.
Qed.

Lemma Read_fetched r state D :
  eval (readSecret r (Mount state) (Path state)) = Next (inl D) →
  let currentKeys := map_fold (observe_step D) ∅ (Keys state) in
  run (Read r state)
  = if decide (size currentKeys = 0) then
      {| Diagnostics := [];
         State := StateRemoved;
         Log := [(Info, "Reading keys from Vault");
                 (Warn, "None of the managed keys exist in Vault, removing from state")];
         Sent := Sent (run (readSecret r (Mount state) (Path state))) |}
    else
      {| Diagnostics := [];
         State := StateSet (with_Keys state currentKeys);
         Log := [(Info, "Reading keys from Vault")];
         Sent := Sent (run (readSecret r (Mount state) (Path state))) |}.
Proof.
  intros Hf currentKeys. unfold Read. handler_steps.
  rewrite (readSecret_eval _ _ _ _ _ Hf). simpl.
  fold currentKeys. destruct (decide (size currentKeys = 0)); reflexivity.
Qed.

Lemma ImportState_fetch_failed r id idx err :
  let mount := String.substring 0 idx id in
  let path := String.substring (idx + 1) (String.length id - (idx + 1)) id in
  String.index 0 "/" id = Some idx →
  mount ≠ "" → path ≠ "" →
  eval (readSecret r mount path) = Next (inr err) →
  run (ImportState r id)
  = {| Diagnostics :=
         [{| Summary := "Failed to Read Secret During Import";
             Detail := "Could not read " +:+ mount +:+ "/" +:+ path +:+ ": " +:+ err |}];
       State := StateUntouched;
       Log := [];
       Sent := Sent (run (readSecret r mount path)) |}.
Proof.
  intros mount path Hidx Hm Hp Hf. unfold ImportState. rewrite Hidx.
  fold mount. fold path. rewrite decide_False by tauto. handler_steps.
  rewrite (readSecret_eval _ _ _ _ _ Hf). simpl. reflexivity.
Qed.

Lemma ImportState_fetched r id idx D :
  let mount := String.substring 0 idx id in
  let path := String.substring (idx + 1) (String.length id - (idx + 1)) id in
  String.index 0 "/" id = Some idx →
  mount ≠ "" → path ≠ "" →
  eval (readSecret r mount path) = Next (inl D) →
  run (ImportState r id)
  = {| Diagnostics := [];
       State := StateSet {| ID := id; Mount := mount; Path := path; Keys := D |};
       Log := [];
       Sent := Sent (run (readSecret r mount path)) |}.
Proof.
  intros mount path Hidx Hm Hp Hf. unfold ImportState. rewrite Hidx.
  fold mount. fold path. rewrite decide_False by tauto. handler_steps.
  rewrite (readSecret_eval _ _ _ _ _ Hf). simpl. reflexivity.
Qed.
End handlers.

(** ** Properties of the patching *)

Section patching.
Context `{!UrlParser}.
Implicit Types (r : KvKeysResource) (plan state : KvKeysResourceModel) (D P : Doc).

Lemma document_after_one D e d : stores e = [d] → document_after D e = d.
Proof. unfold document_after. by intros ->. Qed.

Lemma document_after_none D e : stores e = [] → document_after D e = D.
Proof. unfold document_after. by intros ->. Qed.

Lemma stores_fetch_then_store r mount path D data e :
  eval (readSecret r mount path) = Next (inl D) →
  Sent e = Sent (run (readSecret r mount path))
           ++ Sent (run (writeSecret r mount path data)) →
  stores e = [data].
Proof.
  intros Hf He. unfold stores. rewrite He, omap_app.
  fold (stores (run (readSecret r mount path))).
  fold (stores (run (writeSecret r mount path data))).
  by rewrite readSecret_stores, (writeSecret_stores _ _ _ D).
Qed.

Lemma Create_stores r plan D :
  eval (readSecret r (Mount plan) (Path plan)) = Next (inl D) →
  stores (run (Create r plan))
  = if keysMatch D (Keys plan) then [] else [mergeKeys D (Keys plan)].
Proof.
  intros Hf. destruct (keysMatch D (Keys plan)) eqn:Hm.
  - rewrite (Create_unchanged _ _ _ Hf Hm). apply readSecret_stores.
  - apply (stores_fetch_then_store r (Mount plan) (Path plan) D); [done|].
    rewrite (Create_changed _ _ _ Hf Hm). by repeat case_match.
Qed.

Lemma Update_stores r plan state D :
  eval (readSecret r (Mount plan) (Path plan)) = Next (inl D) →
  stores (run (Update r plan state))
  = [mergeKeys (map_fold (drop_unplanned_step (Keys plan)) D (Keys state)) (Keys plan)].
Proof.
  intros Hf.
  apply (stores_fetch_then_store r (Mount plan) (Path plan) D); [done|].
  rewrite (Update_fetched _ _ _ _ Hf). by repeat case_match.
Qed.

Lemma Delete_stores r state D :
  eval (readSecret r (Mount state) (Path state)) = Next (inl D) →
  stores (run (Delete r state)) = [map_fold drop_step D (Keys state)].
Proof.
  intros Hf.
  apply (stores_fetch_then_store r (Mount state) (Path state) D); [done|].
  rewrite (Delete_fetched _ _ _ Hf). by repeat case_match.
Qed.

Lemma updated_lookup D P (S : Doc) k :
  mergeKeys (map_fold (drop_unplanned_step P) D S) P !! k
  = match P !! k with
    | Some v => Some v
    | None => match S !! k with Some _ => None | None => D !! k end
    end.
Proof.
  rewrite mergeKeys_lookup, drop_unplanned_fold_lookup.
  by destruct (P !! k), (S !! k).
Qed.

(** C8. Create is idempotent: after merging the planned keys into a
    document, the planned keys match it, and merging them again changes
    nothing. *)
Theorem create_idempotent D P :
  keysMatch (mergeKeys D P) P = true
  ∧ mergeKeys (mergeKeys D P) P = mergeKeys D P.
Proof.
  split.
  - apply keysMatch_spec. intros k v Hk. by rewrite mergeKeys_lookup, Hk.
  - apply map_eq; intros k. rewrite !mergeKeys_lookup. by destruct (P !! k).
Qed.

(** C3. Create: once the existing document [D] is fetched, the planned keys
    match exactly when each of them is in [D] with an equal value; then
    nothing is stored and the document stays [D]; otherwise exactly one
    document is stored, [D] with every planned entry inserted or
    overwritten and every other key as in [D]. *)
Theorem create_algorithm r plan D :
  eval (readSecret r (Mount plan) (Path plan)) = Next (inl D) →
  (keysMatch D (Keys plan) = true
   ↔ ∀ k v, Keys plan !! k = Some v → D !! k = Some v)
  ∧ stores (run (Create r plan))
    = (if keysMatch D (Keys plan) then [] else [mergeKeys D (Keys plan)])
  ∧ document_after D (run (Create r plan))
    = (if keysMatch D (Keys plan) then D else mergeKeys D (Keys plan))
  ∧ ∀ k, mergeKeys D (Keys plan) !! k
         = match Keys plan !! k with Some v => Some v | None => D !! k end.
Proof.
  intros Hf. split_and!.
  - apply keysMatch_spec.
  - by apply Create_stores.
  - pose proof (Create_stores _ _ _ Hf) as Hs.
    destruct (keysMatch D (Keys plan)).
    + by apply document_after_none.
    + by apply document_after_one.
  - intros k. apply mergeKeys_lookup.
Qed.

(** C2. Update: once the existing document [D] is fetched, exactly one
    document is stored, whatever [D] holds: [D] without the keys of the
    prior state that the plan no longer has, then every planned entry
    applied on top, so that each planned key holds its planned value. *)
Theorem update_algorithm r plan state D :
  eval (readSecret r (Mount plan) (Path plan)) = Next (inl D) →
  let existingData := map_fold (drop_unplanned_step (Keys plan)) D (Keys state) in
  let merged := mergeKeys existingData (Keys plan) in
  stores (run (Update r plan state)) = [merged]
  ∧ (∀ k, existingData !! k
          = match Keys state !! k, Keys plan !! k with
            | Some _, None => None
            | _, _ => D !! k
            end)
  ∧ (∀ k, merged !! k
          = match Keys plan !! k with
            | Some v => Some v
            | None => match Keys state !! k with Some _ => None | None => D !! k end
            end)
  ∧ (∀ k v, Keys plan !! k = Some v → merged !! k = Some v).
Proof.
  intros Hf existingData merged. split_and!.
  - by apply Update_stores.
  - intros k. apply drop_unplanned_fold_lookup.
  - intros k. apply updated_lookup.
  - intros k v Hk. unfold merged. by rewrite mergeKeys_lookup, Hk.
Qed.
(** C1. Unmanaged keys are preserved: with [D] the fetched document, a key
    outside the managed key sets an operation works with (the plan for
    create, the prior state and the plan for update, the tracked state for
    delete) has in every document the operation stores, and in the document
    it leaves, exactly the value it has in [D]. *)
Theorem unmanaged_keys_preserved r plan state D :
  eval (readSecret r (Mount plan) (Path plan)) = Next (inl D) →
  eval (readSecret r (Mount state) (Path state)) = Next (inl D) →
  (∀ k, Keys plan !! k = None →
        Forall (λ d : Doc, d !! k = D !! k) (stores (run (Create r plan)))
        ∧ document_after D (run (Create r plan)) !! k = D !! k)
  ∧ (∀ k, Keys state !! k = None → Keys plan !! k = None →
          Forall (λ d : Doc, d !! k = D !! k) (stores (run (Update r plan state)))
          ∧ document_after D (run (Update r plan state)) !! k = D !! k)
  ∧ (∀ k, Keys state !! k = None →
          Forall (λ d : Doc, d !! k = D !! k) (stores (run (Delete r state)))
          ∧ document_after D (run (Delete r state)) !! k = D !! k).
Proof.
  intros Hp Hs. split_and!.
  - intros k Hk. pose proof (Create_stores _ _ _ Hp) as Hst.
    unfold document_after. rewrite Hst.
    destruct (keysMatch D (Keys plan)); simpl; [by split|].
    split; [apply Forall_singleton|]; by rewrite mergeKeys_lookup, Hk.
  - intros k Hks Hkp. unfold document_after. rewrite (Update_stores _ _ _ _ Hp). simpl.
    split; [apply Forall_singleton|]; by rewrite updated_lookup, Hks, Hkp.
  - intros k Hk. unfold document_after. rewrite (Delete_stores _ _ _ Hs). simpl.
    split; [apply Forall_singleton|]; by rewrite drop_fold_lookup, Hk.
Qed.

(** C5. Delete: once the existing document [D] is fetched, the document
    stored is [D] with every tracked key removed and every other key as in
    [D]; when the fetch fails, delete raises no error, attempts no store
    and leaves the state alone. *)
Theorem delete_algorithm r r' state D err :
  eval (readSecret r (Mount state) (Path state)) = Next (inl D) →
  eval (readSecret r' (Mount state) (Path state)) = Next (inr err) →
  let remaining := map_fold drop_step D (Keys state) in
  (stores (run (Delete r state)) = [remaining]
   ∧ document_after D (run (Delete r state)) = remaining
   ∧ ∀ k, remaining !! k
          = match Keys state !! k with Some _ => None | None => D !! k end)
  ∧ (Diagnostics (run (Delete r' state)) = []
     ∧ stores (run (Delete r' state)) = []
     ∧ State (run (Delete r' state)) = StateUntouched).
Proof.
  intros Hf Hf' remaining. split; split_and!.
  - by apply Delete_stores.
  - apply document_after_one. by apply Delete_stores.
  - intros k. apply drop_fold_lookup.
  - by rewrite (Delete_fetch_failed _ _ _ Hf').
  - rewrite (Delete_fetch_failed _ _ _ Hf'). apply readSecret_stores.
  - by rewrite (Delete_fetch_failed _ _ _ Hf').
Qed.

(** C10. Delete stores whenever the fetch comes back with a document: the
    remaining document is submitted even if none of the tracked keys was in
    it, and against a path the server answers with 404 the empty document
    is written. *)
Theorem delete_always_stores r r404 state D resp :
  eval (readSecret r (Mount state) (Path state)) = Next (inl D) →
  fetch_answered r404 (Mount state) (Path state) resp →
  StatusCode resp = StatusNotFound →
  ReadError (Body resp) = None →
  stores (run (Delete r state)) = [map_fold drop_step D (Keys state)]
  ∧ ((∀ k, is_Some (Keys state !! k) → D !! k = None) →
     stores (run (Delete r state)) = [D])
  ∧ stores (run (Delete r404 state)) = [∅].
Proof.
  intros Hf Hans Hst Herr. split_and!.
  - by apply Delete_stores.
  - intros Hnone. rewrite (Delete_stores _ _ _ Hf). f_equal.
    apply map_eq; intros k. rewrite drop_fold_lookup.
    destruct (Keys state !! k) eqn:Hk; [|done]. symmetry. apply Hnone. by exists s.
  - rewrite (Delete_stores _ _ ∅ (fetch_not_found _ _ _ _ Hans Hst Herr)). f_equal.
    apply map_eq; intros k. rewrite drop_fold_lookup, lookup_empty. by case_match.
Qed.

(** C6. Refresh: once the existing document [D] is fetched, the observed
    set maps exactly the tracked keys present in [D] to their value in [D];
    if it is empty the resource is removed from the state, otherwise it is
    recorded as the keys of the state. *)
Theorem refresh_observes r state D :
  eval (readSecret r (Mount state) (Path state)) = Next (inl D) →
  let observed := map_fold (observe_step D) ∅ (Keys state) in
  (∀ k, observed !! k
        = match Keys state !! k with Some _ => D !! k | None => None end)
  ∧ State (run (Read r state))
    = (if decide (observed = ∅) then StateRemoved
       else StateSet (with_Keys state observed))
  ∧ Diagnostics (run (Read r state)) = []
  ∧ stores (run (Read r state)) = [].
Proof.
  intros Hf observed. rewrite (Read_fetched _ _ _ Hf). fold observed. split_and!.
  - intros k. apply observe_fold_lookup.
  - destruct (decide (size observed = 0)) as [Hz|Hnz].
    + apply map_size_empty_iff in Hz. by rewrite decide_True.
    + rewrite decide_False; [done|]. intros ->. by rewrite map_size_empty in Hnz.
  - by case_decide.
  - case_decide; apply readSecret_stores.
Qed.

(** C9. Import adopts the whole document: for a well-formed identifier
    [mount/path] whose document [D] is fetched, the state set has [D] itself
    as its keys. *)
Theorem import_adopts r id idx D :
  let mount := String.substring 0 idx id in
  let path := String.substring (idx + 1) (String.length id - (idx + 1)) id in
  String.index 0 "/" id = Some idx →
  mount ≠ "" →
  path ≠ "" →
  eval (readSecret r mount path) = Next (inl D) →
  State (run (ImportState r id))
  = StateSet {| ID := id; Mount := mount; Path := path; Keys := D |}
  ∧ Diagnostics (run (ImportState r id)) = [].
Proof.
  intros mount path Hidx Hm Hp Hf.
  by rewrite (ImportState_fetched _ _ _ _ Hidx Hm Hp Hf).
Qed.
Lemma readSecret_absent_as_empty r1 r2 resp1 resp2 :
  Address (client r1) = Address (client r2) →
  Token (client r1) = Token (client r2) →
  (∀ req, Method req = "GET" → Do (HTTPClient (client r1)) req = inl resp1) →
  StatusCode resp1 = StatusNotFound →
  ReadError (Body resp1) = None →
  (∀ req, Method req = "GET" → Do (HTTPClient (client r2)) req = inl resp2) →
  StatusCode resp2 = StatusOK →
  ReadError (Body resp2) = None →
  Json (Body resp2) = DataMap ∅ →
  ∀ mount path e, readSecret r1 mount path e = readSecret r2 mount path e.
Proof.
  intros Ha Ht H1 Hs1 He1 H2 Hs2 He2 Hj2 mount path e.
  unfold readSecret, http_NewRequest. rewrite Ha, Ht.
  destruct (url_Parse_error _); [done|].
  unfold mbind, Handler_bind, HTTPClient_Do, mret, Handler_ret; simpl.
  rewrite H1, H2 by done. rewrite He1, He2, Hs1, Hs2, Hj2.
  rewrite decide_True by done. by rewrite map_fold_empty.
Qed.

Lemma writeSecret_agree r1 r2 :
  Address (client r1) = Address (client r2) →
  Token (client r1) = Token (client r2) →
  (∀ req, Method req = "POST" →
          Do (HTTPClient (client r1)) req = Do (HTTPClient (client r2)) req) →
  ∀ mount path data e, writeSecret r1 mount path data e = writeSecret r2 mount path data e.
Proof.
  intros Ha Ht Hpost mount path data e.
  unfold writeSecret, http_NewRequest. rewrite Ha, Ht.
  destruct (url_Parse_error _); [done|].
  unfold mbind, Handler_bind, HTTPClient_Do, mret, Handler_ret; simpl.
  by rewrite Hpost.
Qed.

(** C7. Absent as empty: a client whose fetches are answered with 404 and
    one whose fetches are answered with 200 and an empty document, alike in
    everything else, make create, update and delete do exactly the same:
    the same fetched document, diagnostics, state, log and requests. *)
Theorem absent_as_empty r1 r2 plan state resp1 resp2 :
  Address (client r1) = Address (client r2) →
  Token (client r1) = Token (client r2) →
  (∀ req, Method req = "GET" → Do (HTTPClient (client r1)) req = inl resp1) →
  StatusCode resp1 = StatusNotFound →
  ReadError (Body resp1) = None →
  (∀ req, Method req = "GET" → Do (HTTPClient (client r2)) req = inl resp2) →
  StatusCode resp2 = StatusOK →
  ReadError (Body resp2) = None →
  Json (Body resp2) = DataMap ∅ →
  (∀ req, Method req = "POST" →
          Do (HTTPClient (client r1)) req = Do (HTTPClient (client r2)) req) →
  (∀ mount path, eval (readSecret r1 mount path) = eval (readSecret r2 mount path))
  ∧ (∀ mount path D, eval (readSecret r1 mount path) = Next (inl D) → D = ∅)
  ∧ run (Create r1 plan) = run (Create r2 plan)
  ∧ run (Update r1 plan state) = run (Update r2 plan state)
  ∧ run (Delete r1 state) = run (Delete r2 state).
Proof.
  intros Ha Ht H1 Hs1 He1 H2 Hs2 He2 Hj2 Hpost.
  pose proof (readSecret_absent_as_empty _ _ _ _ Ha Ht H1 Hs1 He1 H2 Hs2 He2 Hj2) as Hread.
  pose proof (writeSecret_agree _ _ Ha Ht Hpost) as Hwrite.
  split_and!.
  - intros mount path. unfold eval. by rewrite Hread.
  - intros mount path D. unfold eval, readSecret, http_NewRequest.
    destruct (url_Parse_error _); [done|].
    unfold mbind, Handler_bind, HTTPClient_Do, mret, Handler_ret; simpl.
    rewrite H1 by done. rewrite He1, Hs1, decide_True by done. simpl. congruence.
  - unfold run, Create, mbind, Handler_bind; simpl. rewrite Hread.
    destruct (readSecret r2 _ _ _) as [[[D|err]|] e']; try done.
    destruct (keysMatch D (Keys plan)); simpl; [done|]. by rewrite Hwrite.
  - unfold run, Update, mbind, Handler_bind; simpl. rewrite Hread.
    destruct (readSecret r2 _ _ _) as [[[D|err]|] e']; try done.
    by rewrite Hwrite.
  - unfold run, Delete, mbind, Handler_bind; simpl. rewrite Hread.
    destruct (readSecret r2 _ _ _) as [[[D|err]|] e']; try done.
    by rewrite Hwrite.
Qed.
Lemma readSecret_send_failed r mount path req terr :
  Sent (run (readSecret r mount path)) = [req] →
  Do (HTTPClient (client r)) req = inr terr →
  eval (readSecret r mount path) = Next (inr ("failed to send request: " +:+ terr)).
Proof.
  unfold eval, run, readSecret, http_NewRequest.
  destruct (url_Parse_error _); [done|].
  unfold mbind, Handler_bind, HTTPClient_Do, mret, Handler_ret; simpl.
  intros Hsent Hdo.
  match goal with |- context [Do _ ?q] => assert (q = req) as -> end.
  { repeat (case_match; simpl in * ); congruence. }
  by rewrite Hdo.
Qed.

Lemma writeSecret_send_failed r mount path data req terr :
  Sent (run (writeSecret r mount path data)) = [req] →
  Do (HTTPClient (client r)) req = inr terr →
  eval (writeSecret r mount path data)
  = Next (Some ("failed to send request: " +:+ terr)).
Proof.
  unfold eval, run, writeSecret, http_NewRequest.
  destruct (url_Parse_error _); [done|].
  unfold mbind, Handler_bind, HTTPClient_Do, mret, Handler_ret; simpl.
  intros Hsent Hdo.
  match goal with |- context [Do _ ?q] => assert (q = req) as -> end.
  { repeat (case_match; simpl in * ); congruence. }
  by rewrite Hdo.
Qed.

(** C4, as the code has it. The error of a round trip is handed on with its
    text intact. A failed fetch aborts create, update and import with one
    error diagnostic that carries the text, no store and the state left
    alone; a failed store aborts create, update and delete the same way.
    A failed fetch is absorbed, with no diagnostic and no store, in two
    handlers: delete leaves the state alone, refresh removes the resource
    from it. *)
Theorem failures_surfaced_or_absorbed r plan state id idx :
  let mount := String.substring 0 idx id in
  let path := String.substring (idx + 1) (String.length id - (idx + 1)) id in
  (∀ m p req terr,
      Sent (run (readSecret r m p)) = [req] →
      Do (HTTPClient (client r)) req = inr terr →
      eval (readSecret r m p) = Next (inr ("failed to send request: " +:+ terr)))
  ∧ (∀ m p data req terr,
        Sent (run (writeSecret r m p data)) = [req] →
        Do (HTTPClient (client r)) req = inr terr →
        eval (writeSecret r m p data)
        = Next (Some ("failed to send request: " +:+ terr)))
  ∧ (∀ err,
        eval (readSecret r (Mount plan) (Path plan)) = Next (inr err) →
        let read_failed :=
          [{| Summary := "Failed to Read Existing Secret";
              Detail := "Could not read " +:+ Mount plan +:+ "/" +:+ Path plan
                        +:+ ": " +:+ err |}] in
        (Diagnostics (run (Create r plan)) = read_failed
         ∧ State (run (Create r plan)) = StateUntouched
         ∧ stores (run (Create r plan)) = [])
        ∧ (Diagnostics (run (Update r plan state)) = read_failed
           ∧ State (run (Update r plan state)) = StateUntouched
           ∧ stores (run (Update r plan state)) = []))
  ∧ (∀ err,
        String.index 0 "/" id = Some idx → mount ≠ "" → path ≠ "" →
        eval (readSecret r mount path) = Next (inr err) →
        Diagnostics (run (ImportState r id))
        = [{| Summary := "Failed to Read Secret During Import";
              Detail := "Could not read " +:+ mount +:+ "/" +:+ path
                        +:+ ": " +:+ err |}]
        ∧ State (run (ImportState r id)) = StateUntouched)
  ∧ (∀ err,
        eval (readSecret r (Mount state) (Path state)) = Next (inr err) →
        (Diagnostics (run (Delete r state)) = []
         ∧ State (run (Delete r state)) = StateUntouched
         ∧ stores (run (Delete r state)) = [])
        ∧ (Diagnostics (run (Read r state)) = []
           ∧ State (run (Read r state)) = StateRemoved
           ∧ stores (run (Read r state)) = []))
  ∧ (∀ D err,
        eval (readSecret r (Mount plan) (Path plan)) = Next (inl D) →
        keysMatch D (Keys plan) = false →
        eval (writeSecret r (Mount plan) (Path plan) (mergeKeys D (Keys plan)))
        = Next (Some err) →
        Diagnostics (run (Create r plan))
        = [{| Summary := "Failed to Write Secret";
              Detail := "Could not write to " +:+ Mount plan +:+ "/" +:+ Path plan
                        +:+ ": " +:+ err |}]
        ∧ State (run (Create r plan)) = StateUntouched)
  ∧ (∀ D err,
        eval (readSecret r (Mount plan) (Path plan)) = Next (inl D) →
        eval (writeSecret r (Mount plan) (Path plan)
                (mergeKeys (map_fold (drop_unplanned_step (Keys plan)) D (Keys state))
                           (Keys plan)))
        = Next (Some err) →
        Diagnostics (run (Update r plan state))
        = [{| Summary := "Failed to Write Secret";
              Detail := "Could not write to " +:+ Mount plan +:+ "/" +:+ Path plan
                        +:+ ": " +:+ err |}]
        ∧ State (run (Update r plan state)) = StateUntouched)
  ∧ (∀ D err,
        eval (readSecret r (Mount state) (Path state)) = Next (inl D) →
        eval (writeSecret r (Mount state) (Path state)
                (map_fold drop_step D (Keys state)))
        = Next (Some err) →
        Diagnostics (run (Delete r state))
        = [{| Summary := "Failed to Write Secret After Delete";
              Detail := "Could not update " +:+ Mount state +:+ "/" +:+ Path state
                        +:+ " after removing keys: " +:+ err |}]
        ∧ State (run (Delete r state)) = StateUntouched).
Proof.
  intros mount path. split_and!.
  - apply readSecret_send_failed.
  - apply writeSecret_send_failed.
  - intros err Hf read_failed.
    rewrite (Create_fetch_failed _ _ _ Hf), (Update_fetch_failed _ _ _ _ Hf).
    unfold stores at 1 2; simpl. fold (stores (run (readSecret r (Mount plan) (Path plan)))).
    by rewrite readSecret_stores.
  - intros err Hidx Hm Hp Hf.
    by rewrite (ImportState_fetch_failed _ _ _ _ Hidx Hm Hp Hf).
  - intros err Hf.
    rewrite (Delete_fetch_failed _ _ _ Hf), (Read_fetch_failed _ _ _ Hf).
    unfold stores at 1 2; simpl. fold (stores (run (readSecret r (Mount state) (Path state)))).
    by rewrite readSecret_stores.
  - intros D err Hf Hm Hw. rewrite (Create_changed _ _ _ Hf Hm). by rewrite Hw.
  - intros D err Hf Hw. rewrite (Update_fetched _ _ _ _ Hf). by rewrite Hw.
  - intros D err Hf Hw. rewrite (Delete_fetched _ _ _ Hf). by rewrite Hw.
Qed.
End patching.

(** ** The theorems on concrete clients *)

(** C4, as stated, fails on refresh. Against a Vault that is down the fetch
    fails, and [Read] reports no error: it removes the resource from the
    state. A failed fetch is absorbed by a handler other than delete. *)
Lemma refresh_absorbs_fetch_failure :
  eval (@readSecret parses_all vault_down "app" "my-service/test")
  = Next (inr "failed to send request: dial tcp: connection refused")
  ∧ Diagnostics (run (@Read parses_all vault_down (model_of {[ "a" := "1" ]}))) = []
  ∧ State (run (@Read parses_all vault_down (model_of {[ "a" := "1" ]}))) = StateRemoved.
Proof. vm_compute. by split_and!. Qed.

Lemma create_algorithm_witness :
  eval (@readSecret parses_all (vault_holding {[ "a" := JString "x" ]})
          "app" "my-service/test")
  = Next (inl {[ "a" := "x" ]})
  ∧ stores (run (@Create parses_all (vault_holding {[ "a" := JString "x" ]})
                   (model_of {[ "a" := "x" ]}))) = []
  ∧ document_after {[ "a" := "x" ]}
      (run (@Create parses_all (vault_holding {[ "a" := JString "x" ]})
              (model_of {[ "a" := "x" ]}))) = {[ "a" := "x" ]}.
Proof.
  assert (eval (@readSecret parses_all (vault_holding {[ "a" := JString "x" ]})
                  "app" "my-service/test")
          = Next (inl {[ "a" := "x" ]})) as Hf by (vm_compute; reflexivity).
  destruct (@create_algorithm parses_all _ (model_of {[ "a" := "x" ]}) _ Hf)
    as (_ & Hst & Hdoc & _).
  split_and!; [exact Hf | rewrite Hst | rewrite Hdoc]; vm_compute; reflexivity.
Defined.

Lemma update_algorithm_witness :
  eval (@readSecret parses_all
          (vault_holding {[ "a" := JString "1"; "b" := JString "2"; "c" := JString "3" ]})
          "app" "my-service/test")
  = Next (inl {[ "a" := "1"; "b" := "2"; "c" := "3" ]})
  ∧ stores (run (@Update parses_all
                   (vault_holding {[ "a" := JString "1"; "b" := JString "2"; "c" := JString "3" ]})
                   (model_of {[ "a" := "1" ]})
                   (model_of {[ "a" := "1"; "b" := "2" ]})))
    = [ {[ "a" := "1"; "c" := "3" ]} ].
Proof.
  assert (eval (@readSecret parses_all
                  (vault_holding {[ "a" := JString "1"; "b" := JString "2"; "c" := JString "3" ]})
                  "app" "my-service/test")
          = Next (inl {[ "a" := "1"; "b" := "2"; "c" := "3" ]})) as Hf
    by (vm_compute; reflexivity).
  destruct (@update_algorithm parses_all _ (model_of {[ "a" := "1" ]})
              (model_of {[ "a" := "1"; "b" := "2" ]}) _ Hf) as (Hst & _).
  split; [exact Hf | rewrite Hst; vm_compute; reflexivity].
Defined.

Lemma unmanaged_keys_preserved_witness :
  eval (@readSecret parses_all
          (vault_holding {[ "a" := JString "1"; "b" := JString "2"; "c" := JString "3" ]})
          "app" "my-service/test")
  = Next (inl {[ "a" := "1"; "b" := "2"; "c" := "3" ]})
  ∧ document_after {[ "a" := "1"; "b" := "2"; "c" := "3" ]}
      (run (@Create parses_all
              (vault_holding {[ "a" := JString "1"; "b" := JString "2"; "c" := JString "3" ]})
              (model_of {[ "a" := "0" ]}))) !! "c" = Some "3"
  ∧ document_after {[ "a" := "1"; "b" := "2"; "c" := "3" ]}
      (run (@Update parses_all
              (vault_holding {[ "a" := JString "1"; "b" := JString "2"; "c" := JString "3" ]})
              (model_of {[ "a" := "0" ]})
              (model_of {[ "a" := "1"; "b" := "2" ]}))) !! "c" = Some "3"
  ∧ document_after {[ "a" := "1"; "b" := "2"; "c" := "3" ]}
      (run (@Delete parses_all
              (vault_holding {[ "a" := JString "1"; "b" := JString "2"; "c" := JString "3" ]})
              (model_of {[ "a" := "1"; "b" := "2" ]}))) !! "c" = Some "3".
Proof.
  assert (eval (@readSecret parses_all
                  (vault_holding {[ "a" := JString "1"; "b" := JString "2"; "c" := JString "3" ]})
                  "app" "my-service/test")
          = Next (inl {[ "a" := "1"; "b" := "2"; "c" := "3" ]})) as Hf
    by (vm_compute; reflexivity).
  destruct (@unmanaged_keys_preserved parses_all _ (model_of {[ "a" := "0" ]})
              (model_of {[ "a" := "1"; "b" := "2" ]}) _ Hf Hf) as (Hc & Hu & Hd).
  split_and!; [exact Hf | | | ].
  - rewrite (proj2 (Hc "c" ltac:(vm_compute; reflexivity))). vm_compute; reflexivity.
  - rewrite (proj2 (Hu "c" ltac:(vm_compute; reflexivity) ltac:(vm_compute; reflexivity))).
    vm_compute; reflexivity.
  - rewrite (proj2 (Hd "c" ltac:(vm_compute; reflexivity))). vm_compute; reflexivity.
Defined.

Lemma delete_algorithm_witness :
  eval (@readSecret parses_all (vault_holding {[ "a" := JString "1"; "z" := JString "9" ]})
          "app" "my-service/test")
  = Next (inl {[ "a" := "1"; "z" := "9" ]})
  ∧ eval (@readSecret parses_all vault_down "app" "my-service/test")
    = Next (inr "failed to send request: dial tcp: connection refused")
  ∧ stores (run (@Delete parses_all (vault_holding {[ "a" := JString "1"; "z" := JString "9" ]})
                   (model_of {[ "a" := "1" ]})))
    = [ {[ "z" := "9" ]} ]
  ∧ Diagnostics (run (@Delete parses_all vault_down (model_of {[ "a" := "1" ]}))) = []
  ∧ stores (run (@Delete parses_all vault_down (model_of {[ "a" := "1" ]}))) = [].
Proof.
  assert (eval (@readSecret parses_all (vault_holding {[ "a" := JString "1"; "z" := JString "9" ]})
                  "app" "my-service/test")
          = Next (inl {[ "a" := "1"; "z" := "9" ]})) as Hf by (vm_compute; reflexivity).
  assert (eval (@readSecret parses_all vault_down "app" "my-service/test")
          = Next (inr "failed to send request: dial tcp: connection refused")) as Hf'
    by (vm_compute; reflexivity).
  destruct (@delete_algorithm parses_all _ _ (model_of {[ "a" := "1" ]}) _ _ Hf Hf')
    as ((Hst & _) & (Hdiag & Hnone & _)).
  split_and!; [exact Hf | exact Hf' | rewrite Hst; vm_compute; reflexivity
               | exact Hdiag | exact Hnone].
Defined.

Lemma delete_always_stores_witness :
  eval (@readSecret parses_all (vault_holding {[ "z" := JString "9" ]})
          "app" "my-service/test")
  = Next (inl {[ "z" := "9" ]})
  ∧ stores (run (@Delete parses_all (vault_holding {[ "z" := JString "9" ]})
                   (model_of {[ "a" := "1" ]})))
    = [ {[ "z" := "9" ]} ]
  ∧ stores (run (@Delete parses_all vault_without_secret (model_of {[ "a" := "1" ]})))
    = [ ∅ ].
Proof.
  assert (eval (@readSecret parses_all (vault_holding {[ "z" := JString "9" ]})
                  "app" "my-service/test")
          = Next (inl {[ "z" := "9" ]})) as Hf by (vm_compute; reflexivity).
  assert (@fetch_answered parses_all vault_without_secret "app" "my-service/test"
            {| StatusCode := 404;
               Body := {| Bytes := "{...}"; ReadError := None; Json := DataNil |} |}) as Hans.
  { eexists. split; reflexivity. }
  destruct (@delete_always_stores parses_all _ _ (model_of {[ "a" := "1" ]}) _ _
              Hf Hans eq_refl eq_refl) as (Hst & _ & H404).
  split_and!; [exact Hf | rewrite Hst; vm_compute; reflexivity | exact H404].
Defined.

Lemma refresh_observes_witness :
  eval (@readSecret parses_all (vault_holding {[ "a" := JString "7"; "z" := JString "9" ]})
          "app" "my-service/test")
  = Next (inl {[ "a" := "7"; "z" := "9" ]})
  ∧ State (run (@Read parses_all (vault_holding {[ "a" := JString "7"; "z" := JString "9" ]})
                  (model_of {[ "a" := "1"; "b" := "2" ]})))
    = StateSet (model_of {[ "a" := "7" ]})
  ∧ State (run (@Read parses_all (vault_holding {[ "a" := JString "7"; "z" := JString "9" ]})
                  (model_of {[ "b" := "2" ]})))
    = StateRemoved.
Proof.
  assert (eval (@readSecret parses_all (vault_holding {[ "a" := JString "7"; "z" := JString "9" ]})
                  "app" "my-service/test")
          = Next (inl {[ "a" := "7"; "z" := "9" ]})) as Hf by (vm_compute; reflexivity).
  destruct (@refresh_observes parses_all _ (model_of {[ "a" := "1"; "b" := "2" ]}) _ Hf)
    as (_ & Hset & _).
  destruct (@refresh_observes parses_all _ (model_of {[ "b" := "2" ]}) _ Hf)
    as (_ & Hgone & _).
  split_and!; [exact Hf | rewrite Hset | rewrite Hgone]; vm_compute; reflexivity.
Defined.

Lemma import_adopts_witness :
  eval (@readSecret parses_all (vault_holding {[ "a" := JString "1"; "b" := JString "2" ]})
          "app" "my-service/test")
  = Next (inl {[ "a" := "1"; "b" := "2" ]})
  ∧ State (run (@ImportState parses_all
                  (vault_holding {[ "a" := JString "1"; "b" := JString "2" ]})
                  "app/my-service/test"))
    = StateSet (model_of {[ "a" := "1"; "b" := "2" ]}).
Proof.
  assert (eval (@readSecret parses_all (vault_holding {[ "a" := JString "1"; "b" := JString "2" ]})
                  "app" "my-service/test")
          = Next (inl {[ "a" := "1"; "b" := "2" ]})) as Hf by (vm_compute; reflexivity).
  destruct (@import_adopts parses_all
              (vault_holding {[ "a" := JString "1"; "b" := JString "2" ]})
              "app/my-service/test" 3 {[ "a" := "1"; "b" := "2" ]}
              eq_refl ltac:(discriminate) ltac:(discriminate) Hf) as (Hst & _).
  split; [exact Hf | exact Hst].
Defined.

Lemma absent_as_empty_witness :
  run (@Create parses_all vault_without_secret (model_of {[ "a" := "1" ]}))
  = run (@Create parses_all (vault_holding ∅) (model_of {[ "a" := "1" ]}))
  ∧ run (@Update parses_all vault_without_secret (model_of {[ "a" := "1" ]})
           (model_of {[ "b" := "2" ]}))
    = run (@Update parses_all (vault_holding ∅) (model_of {[ "a" := "1" ]})
             (model_of {[ "b" := "2" ]}))
  ∧ run (@Delete parses_all vault_without_secret (model_of {[ "b" := "2" ]}))
    = run (@Delete parses_all (vault_holding ∅) (model_of {[ "b" := "2" ]}))
  ∧ stores (run (@Create parses_all vault_without_secret (model_of {[ "a" := "1" ]})))
    = [ {[ "a" := "1" ]} ].
Proof.
  assert (∀ req, Method req = "GET" →
            Do (HTTPClient (client vault_without_secret)) req
            = inl {| StatusCode := 404;
                     Body := {| Bytes := "{...}"; ReadError := None; Json := DataNil |} |})
    as H1 by (intros req Hm; simpl; rewrite Hm; reflexivity).
  assert (∀ req, Method req = "GET" →
            Do (HTTPClient (client (vault_holding ∅))) req
            = inl {| StatusCode := 200;
                     Body := {| Bytes := "{...}"; ReadError := None; Json := DataMap ∅ |} |})
    as H2 by (intros req Hm; simpl; rewrite Hm; reflexivity).
  assert (∀ req, Method req = "POST" →
            Do (HTTPClient (client vault_without_secret)) req
            = Do (HTTPClient (client (vault_holding ∅))) req)
    as Hpost by (intros req Hm; simpl; rewrite Hm; reflexivity).
  destruct (@absent_as_empty parses_all vault_without_secret (vault_holding ∅)
              (model_of {[ "a" := "1" ]}) (model_of {[ "b" := "2" ]}) _ _
              eq_refl eq_refl H1 eq_refl eq_refl H2 eq_refl eq_refl eq_refl Hpost)
    as (_ & _ & Hc & Hu & Hd).
  split_and!; [exact Hc | exact Hu | exact Hd | vm_compute; reflexivity].
Defined.

Lemma failures_surfaced_or_absorbed_witness :
  Diagnostics (run (@Create parses_all vault_down (model_of {[ "a" := "1" ]})))
  = [{| Summary := "Failed to Read Existing Secret";
        Detail := "Could not read app/my-service/test: failed to send request: dial tcp: connection refused" |}]
  ∧ Diagnostics (run (@ImportState parses_all vault_down "app/my-service/test"))
    = [{| Summary := "Failed to Read Secret During Import";
          Detail := "Could not read app/my-service/test: failed to send request: dial tcp: connection refused" |}]
  ∧ Diagnostics (run (@Delete parses_all vault_down (model_of {[ "a" := "1" ]}))) = []
  ∧ State (run (@Read parses_all vault_down (model_of {[ "a" := "1" ]}))) = StateRemoved
  ∧ Diagnostics (run (@Create parses_all (vault_read_only {[ "z" := JString "9" ]})
                        (model_of {[ "a" := "1" ]})))
    = [{| Summary := "Failed to Write Secret";
          Detail := "Could not write to app/my-service/test: failed to send request: write: broken pipe" |}]
  ∧ Diagnostics (run (@Update parses_all (vault_read_only {[ "z" := JString "9" ]})
                        (model_of {[ "a" := "1" ]}) (model_of {[ "a" := "1" ]})))
    = [{| Summary := "Failed to Write Secret";
          Detail := "Could not write to app/my-service/test: failed to send request: write: broken pipe" |}]
  ∧ Diagnostics (run (@Delete parses_all (vault_read_only {[ "z" := JString "9" ]})
                        (model_of {[ "a" := "1" ]})))
    = [{| Summary := "Failed to Write Secret After Delete";
          Detail := "Could not update app/my-service/test after removing keys: failed to send request: write: broken pipe" |}].
Proof.
  assert (eval (@readSecret parses_all vault_down "app" "my-service/test")
          = Next (inr "failed to send request: dial tcp: connection refused")) as Hdown
    by (vm_compute; reflexivity).
  assert (eval (@readSecret parses_all (vault_read_only {[ "z" := JString "9" ]})
                  "app" "my-service/test")
          = Next (inl {[ "z" := "9" ]})) as Hf by (vm_compute; reflexivity).
  destruct (@failures_surfaced_or_absorbed parses_all vault_down
              (model_of {[ "a" := "1" ]}) (model_of {[ "a" := "1" ]})
              "app/my-service/test" 3)
    as (_ & _ & Hcu & Himp & Hdr & _).
  destruct (@failures_surfaced_or_absorbed parses_all (vault_read_only {[ "z" := JString "9" ]})
              (model_of {[ "a" := "1" ]}) (model_of {[ "a" := "1" ]})
              "app/my-service/test" 3)
    as (_ & _ & _ & _ & _ & Hcw & Huw & Hdw).
  split_and!.
  - exact (proj1 (proj1 (Hcu _ Hdown))).
  - exact (proj1 (Himp _ eq_refl ltac:(discriminate) ltac:(discriminate) Hdown)).
  - exact (proj1 (proj1 (Hdr _ Hdown))).
  - exact (proj1 (proj2 (proj2 (Hdr _ Hdown)))).
  - exact (proj1 (Hcw _ _ Hf ltac:(vm_compute; reflexivity) ltac:(vm_compute; reflexivity))).
  - exact (proj1 (Huw _ _ Hf ltac:(vm_compute; reflexivity))).
  - exact (proj1 (Hdw _ _ Hf ltac:(vm_compute; reflexivity))).
Defined.

(** ** Further properties: how the operations compose *)

Section composition.
Context `{!UrlParser}.
Implicit Types (r : KvKeysResource) (plan state st : KvKeysResourceModel) (D P S : Doc).

Lemma with_Keys_same st : with_Keys st (Keys st) = st.
Proof. by destruct st. Qed.

Lemma drop_after_merge D P :
  map_fold drop_step (mergeKeys D P) P = map_fold drop_step D P.
Proof.
  apply map_eq; intros k. rewrite !drop_fold_lookup, mergeKeys_lookup.
  by destruct (P !! k).
Qed.

Lemma drop_twice D S :
  map_fold drop_step (map_fold drop_step D S) S = map_fold drop_step D S.
Proof.
  apply map_eq; intros k. rewrite !drop_fold_lookup. by destruct (S !! k).
Qed.

Lemma drop_all D : map_fold drop_step D D = ∅.
Proof.
  apply map_eq; intros k. rewrite drop_fold_lookup, lookup_empty.
  by destruct (D !! k).
Qed.

Lemma drop_nothing_iff D S :
  map_fold drop_step D S = D ↔ dom D ## dom S.
Proof.
  split.
  - intros Heq k [v Hd]%elem_of_dom [w Hs]%elem_of_dom.
    rewrite <-Heq, drop_fold_lookup, Hs in Hd. done.
  - intros Hdisj. apply map_eq; intros k. rewrite drop_fold_lookup.
    destruct (S !! k) as [w|] eqn:Hs; [|done].
    destruct (D !! k) as [v|] eqn:Hd; [|done].
    exfalso. apply (Hdisj k); apply elem_of_dom; eauto.
Qed.

Lemma observe_planned (M P : Doc) :
  (∀ k v, P !! k = Some v → M !! k = Some v) →
  map_fold (observe_step M) ∅ P = P.
Proof.
  intros Hsub. apply map_eq; intros k. rewrite observe_fold_lookup.
  destruct (P !! k) as [v|] eqn:Hk; [by apply Hsub|done].
Qed.

Lemma Create_state_inv r plan D st :
  eval (readSecret r (Mount plan) (Path plan)) = Next (inl D) →
  State (run (Create r plan)) = StateSet st →
  st = with_ID plan (Mount plan +:+ "/" +:+ Path plan)
  ∧ Diagnostics (run (Create r plan)) = [].
Proof.
  intros Hf. destruct (keysMatch D (Keys plan)) eqn:Hm.
  - rewrite (Create_unchanged _ _ _ Hf Hm). simpl. by intros [= <-].
  - rewrite (Create_changed _ _ _ Hf Hm).
    destruct (eval (writeSecret _ _ _ _)) as [[err|]|]; simpl; try done;
      by intros [= <-].
Qed.

Lemma Update_state_inv r plan state D st :
  eval (readSecret r (Mount plan) (Path plan)) = Next (inl D) →
  State (run (Update r plan state)) = StateSet st →
  st = with_ID plan (Mount plan +:+ "/" +:+ Path plan)
  ∧ Diagnostics (run (Update r plan state)) = [].
Proof.
  intros Hf. rewrite (Update_fetched _ _ _ _ Hf).
  destruct (eval (writeSecret _ _ _ _)) as [[err|]|]; simpl; try done;
    by intros [= <-].
Qed.

Lemma Create_document_after r plan D :
  eval (readSecret r (Mount plan) (Path plan)) = Next (inl D) →
  document_after D (run (Create r plan))
  = if keysMatch D (Keys plan) then D else mergeKeys D (Keys plan).
Proof.
  intros Hf. pose proof (Create_stores _ _ _ Hf) as Hs.
  destruct (keysMatch D (Keys plan)).
  - by apply document_after_none.
  - by apply document_after_one.
Qed.

Lemma Create_document_holds_plan r plan D k v :
  eval (readSecret r (Mount plan) (Path plan)) = Next (inl D) →
  Keys plan !! k = Some v →
  document_after D (run (Create r plan)) !! k = Some v.
Proof.
  intros Hf Hk. rewrite (Create_document_after _ _ _ Hf).
  destruct (keysMatch D (Keys plan)) eqn:Hm.
  - by apply (proj1 (keysMatch_spec _ _) Hm).
  - by rewrite mergeKeys_lookup, Hk.
Qed.

(** X1. Create skips the store exactly when merging the planned keys into
    the fetched document would leave it as it is. *)
Theorem create_skips_iff_merge_noop r plan D :
  eval (readSecret r (Mount plan) (Path plan)) = Next (inl D) →
  stores (run (Create r plan)) = [] ↔ mergeKeys D (Keys plan) = D.
Proof.
  intros Hf. rewrite (Create_stores _ _ _ Hf).
  destruct (keysMatch D (Keys plan)) eqn:Hm.
  - split; [intros _|done]. apply map_eq; intros k. rewrite mergeKeys_lookup.
    destruct (Keys plan !! k) as [v|] eqn:Hk; [|done].
    symmetry. by apply (proj1 (keysMatch_spec _ _) Hm).
  - split; [done|]. intros Heq. exfalso.
    assert (keysMatch D (Keys plan) = true) as Ht; [|congruence].
    apply keysMatch_spec. intros k v Hk. by rewrite <-Heq, mergeKeys_lookup, Hk.
Qed.

(** X2. The key sets of the documents the loops build: a merge has the keys
    of both maps; an update has the fetched keys without those dropped from
    the declaration, and the planned ones; a delete has the fetched keys
    without the tracked ones; a refresh observes the tracked keys that are
    also fetched. *)
Theorem result_key_sets D P S :
  dom (mergeKeys D P) = dom D ∪ dom P
  ∧ dom (mergeKeys (map_fold (drop_unplanned_step P) D S) P)
    = (dom D ∖ (dom S ∖ dom P)) ∪ dom P
  ∧ dom (map_fold drop_step D S) = dom D ∖ dom S
  ∧ dom (map_fold (observe_step D) ∅ S) = dom S ∩ dom D.
Proof.
  split_and!; apply set_eq; intros k;
    rewrite ?elem_of_union, ?elem_of_difference, ?elem_of_intersection,
      ?elem_of_difference, !elem_of_dom;
    rewrite ?mergeKeys_lookup, ?drop_unplanned_fold_lookup, ?drop_fold_lookup,
      ?observe_fold_lookup;
    rewrite <-!not_eq_None_Some;
    destruct (D !! k), (P !! k), (S !! k); intuition congruence.
Qed.

(** X3. Delete after create: when the server holds what a successful create
    left and the state is the one create set, delete stores the originally
    fetched document without the planned keys. That is the original
    document exactly when it had none of the planned keys: a value create
    overwrote is not restored. *)
Theorem delete_after_create r r' plan st D :
  eval (readSecret r (Mount plan) (Path plan)) = Next (inl D) →
  State (run (Create r plan)) = StateSet st →
  eval (readSecret r' (Mount st) (Path st))
  = Next (inl (document_after D (run (Create r plan)))) →
  stores (run (Delete r' st)) = [map_fold drop_step D (Keys plan)]
  ∧ (map_fold drop_step D (Keys plan) = D ↔ dom D ## dom (Keys plan)).
Proof.
  intros Hf Hst Hf'. split; [|apply drop_nothing_iff].
  destruct (Create_state_inv _ _ _ _ Hf Hst) as [-> _].
  rewrite (Delete_stores _ _ _ Hf'). simpl. f_equal.
  rewrite (Create_document_after _ _ _ Hf).
  destruct (keysMatch D (Keys plan)); [done|apply drop_after_merge].
Qed.

(** X4. Delete can be retried: against the document a first delete stored,
    a second delete with the same state stores that document again. *)
Theorem delete_retry_stores_same r r' state D :
  eval (readSecret r (Mount state) (Path state)) = Next (inl D) →
  eval (readSecret r' (Mount state) (Path state))
  = Next (inl (map_fold drop_step D (Keys state))) →
  stores (run (Delete r' state)) = stores (run (Delete r state)).
Proof.
  intros Hf Hf'. rewrite (Delete_stores _ _ _ Hf), (Delete_stores _ _ _ Hf').
  by rewrite drop_twice.
Qed.

(** X6. Refresh after create: when the server holds what a successful
    create left, a refresh of the state create set, with at least one key
    declared, sets that same state again: no drift is reported. *)
Theorem refresh_after_create r r' plan st D :
  eval (readSecret r (Mount plan) (Path plan)) = Next (inl D) →
  State (run (Create r plan)) = StateSet st →
  Keys plan ≠ ∅ →
  eval (readSecret r' (Mount st) (Path st))
  = Next (inl (document_after D (run (Create r plan)))) →
  State (run (Read r' st)) = StateSet st.
Proof.
  intros Hf Hst Hne Hf'.
  destruct (Create_state_inv _ _ _ _ Hf Hst) as [Heq _].
  rewrite (Read_fetched _ _ _ Hf').
  assert (Keys st = Keys plan) as Hk by (by rewrite Heq).
  rewrite Hk, observe_planned.
  - rewrite decide_False by (by rewrite map_size_non_empty_iff).
    simpl. by rewrite <-Hk, with_Keys_same.
  - intros k v. by apply Create_document_holds_plan.
Qed.

(** X7. Refresh after update: when the server holds the document a
    successful update stored, a refresh of the state update set, with at
    least one key declared, sets that same state again. *)
Theorem refresh_after_update r r' plan state st D :
  eval (readSecret r (Mount plan) (Path plan)) = Next (inl D) →
  State (run (Update r plan state)) = StateSet st →
  Keys plan ≠ ∅ →
  eval (readSecret r' (Mount st) (Path st))
  = Next (inl (document_after D (run (Update r plan state)))) →
  State (run (Read r' st)) = StateSet st.
Proof.
  intros Hf Hst Hne Hf'.
  destruct (Update_state_inv _ _ _ _ _ Hf Hst) as [Heq _].
  rewrite (Read_fetched _ _ _ Hf').
  assert (Keys st = Keys plan) as Hk by (by rewrite Heq).
  rewrite Hk, observe_planned.
  - rewrite decide_False by (by rewrite map_size_non_empty_iff).
    simpl. by rewrite <-Hk, with_Keys_same.
  - intros k v Hkv. rewrite (document_after_one _ _ _ (Update_stores _ _ _ _ Hf)).
    by rewrite mergeKeys_lookup, Hkv.
Qed.
End composition.

(** ** Further properties: identifiers *)

Lemma substring_0_0 s : String.substring 0 0 s = "".
Proof. by destruct s. Qed.

Lemma prefix_slash c s :
  String.prefix "/" (String c s) = bool_decide (String c "" = "/").
Proof.
  destruct (String.prefix "/" (String c s)) eqn:Hp.
  - apply String.prefix_correct in Hp. simpl in Hp. rewrite substring_0_0 in Hp.
    by rewrite bool_decide_eq_true_2.
  - case_bool_decide as Hc; [|done]. exfalso.
    assert (String.prefix "/" (String c s) = true) as Ht; [|congruence].
    apply String.prefix_correct. simpl. by rewrite substring_0_0.
Qed.

Lemma index_slash_cons c s :
  String.index 0 "/" (String c s)
  = if bool_decide (String c "" = "/") then Some 0 else S <$> String.index 0 "/" s.
Proof.
  cbn [String.index]. rewrite prefix_slash. case_bool_decide; [done|].
  by destruct (String.index 0 "/" s).
Qed.

Lemma index_slash_nil : String.index 0 "/" "" = None.
Proof. done. Qed.

Lemma append_cons c (a b : string) : String c a +:+ b = String c (a +:+ b).
Proof. reflexivity. Qed.

Lemma append_nil (b : string) : "" +:+ b = b.
Proof. reflexivity. Qed.

Lemma substring_all s : String.substring 0 (String.length s) s = s.
Proof. induction s; simpl; [done|]. by f_equal. Qed.

Lemma split_at_slash id idx :
  String.index 0 "/" id = Some idx →
  id = String.substring 0 idx id +:+ "/"
       +:+ String.substring (idx + 1) (String.length id - (idx + 1)) id
  ∧ String.index 0 "/" (String.substring 0 idx id) = None
  ∧ String.length (String.substring 0 idx id) = idx
  ∧ idx < String.length id.
Proof.
  revert idx. induction id as [|c s IH]; intros idx; [done|].
  rewrite index_slash_cons. case_bool_decide as Hc.
  - intros [= <-]. injection Hc as ->. simpl. split_and!; try done; [|lia].
    by rewrite append_nil, Nat.sub_0_r, substring_all.
  - destruct (String.index 0 "/" s) as [n|] eqn:Hn; [|done]. simpl.
    intros [= <-]. destruct (IH n eq_refl) as (Heq & Hno & Hlen & Hlt).
    change (String.substring 0 (S n) (String c s))
      with (String c (String.substring 0 n s)).
    change (String.substring (S n + 1) (String.length (String c s) - (S n + 1))
              (String c s))
      with (String.substring (n + 1) (String.length s - (n + 1)) s).
    split_and!.
    + rewrite append_cons. f_equal. exact Heq.
    + rewrite index_slash_cons, bool_decide_eq_false_2 by done. by rewrite Hno.
    + simpl. by rewrite Hlen.
    + simpl. lia.
Qed.

Lemma join_at_slash mount path :
  String.index 0 "/" mount = None →
  String.index 0 "/" (mount +:+ "/" +:+ path) = Some (String.length mount)
  ∧ String.substring 0 (String.length mount) (mount +:+ "/" +:+ path) = mount
  ∧ String.substring (String.length mount + 1)
      (String.length (mount +:+ "/" +:+ path) - (String.length mount + 1))
      (mount +:+ "/" +:+ path) = path.
Proof.
  induction mount as [|c s IH].
  - intros _. rewrite append_nil, append_cons, append_nil. split_and!.
    + by rewrite index_slash_cons, bool_decide_eq_true_2.
    + apply substring_0_0.
    + cbn [String.length Nat.add String.substring Nat.sub].
      rewrite Nat.sub_0_r. apply substring_all.
  - rewrite index_slash_cons. case_bool_decide as Hc; [done|].
    destruct (String.index 0 "/" s) eqn:Hn; [done|]. intros _.
    destruct (IH eq_refl) as (Hi & Hm & Hp).
    rewrite append_cons.
    rewrite index_slash_cons, bool_decide_eq_false_2 by done.
    rewrite Hi. split_and!; [done | |exact Hp].
    cbn [String.length String.substring]. by f_equal.
Qed.

Section identifiers.
Context `{!UrlParser}.
Implicit Types (r : KvKeysResource) (plan state st : KvKeysResourceModel) (D : Doc).

Lemma ImportState_no_slash r id :
  String.index 0 "/" id = None →
  run (ImportState r id)
  = {| Diagnostics :=
         [{| Summary := "Invalid Import ID";
             Detail := "Import ID must be in the format 'mount/path' (e.g., 'app_envs/my-service/test')." |}];
       State := StateUntouched; Log := []; Sent := [] |}.
Proof. intros Hidx. unfold ImportState. rewrite Hidx. reflexivity. Qed.

Lemma ImportState_empty_part r id idx :
  String.index 0 "/" id = Some idx →
  String.substring 0 idx id = ""
  ∨ String.substring (idx + 1) (String.length id - (idx + 1)) id = "" →
  run (ImportState r id)
  = {| Diagnostics :=
         [{| Summary := "Invalid Import ID";
             Detail := "Both mount and path must be non-empty. Format: 'mount/path'." |}];
       State := StateUntouched; Log := []; Sent := [] |}.
Proof.
  intros Hidx Hempty. unfold ImportState. rewrite Hidx.
  rewrite decide_True by done. reflexivity.
Qed.

Lemma ImportState_inv r id st :
  State (run (ImportState r id)) = StateSet st →
  ∃ idx D,
    String.index 0 "/" id = Some idx
    ∧ String.substring 0 idx id ≠ ""
    ∧ String.substring (idx + 1) (String.length id - (idx + 1)) id ≠ ""
    ∧ eval (readSecret r (String.substring 0 idx id)
              (String.substring (idx + 1) (String.length id - (idx + 1)) id))
      = Next (inl D)
    ∧ st = {| ID := id; Mount := String.substring 0 idx id;
              Path := String.substring (idx + 1) (String.length id - (idx + 1)) id;
              Keys := D |}.
Proof.
  destruct (String.index 0 "/" id) as [idx|] eqn:Hidx;
    [|by rewrite (ImportState_no_slash _ _ Hidx)].
  destruct (decide (String.substring 0 idx id = ""
                    ∨ String.substring (idx + 1) (String.length id - (idx + 1)) id = ""))
    as [Hempty|Hfull]; [by rewrite (ImportState_empty_part _ _ _ Hidx Hempty)|].
  assert (String.substring 0 idx id ≠ "") as Hm by tauto.
  assert (String.substring (idx + 1) (String.length id - (idx + 1)) id ≠ "") as Hp by tauto.
  destruct (readSecret_total r (String.substring 0 idx id)
              (String.substring (idx + 1) (String.length id - (idx + 1)) id))
    as [[D|err] Hf].
  - rewrite (ImportState_fetched _ _ _ _ Hidx Hm Hp Hf). simpl. intros [= <-].
    by exists idx, D.
  - by rewrite (ImportState_fetch_failed _ _ _ _ Hidx Hm Hp Hf).
Qed.

(** X8. Import rejects an identifier as invalid exactly when it is not of
    the form mount/path with both parts non-empty and the first slash as
    the separator; a rejected identifier sends nothing to the server and
    sets no state. *)
Theorem import_rejects_exactly_malformed r id :
  let rejected :=
    ∃ detail, Diagnostics (run (ImportState r id))
              = [{| Summary := "Invalid Import ID"; Detail := detail |}] in
  (rejected
   ↔ ¬ ∃ mount path, id = mount +:+ "/" +:+ path ∧ mount ≠ "" ∧ path ≠ ""
                     ∧ String.index 0 "/" mount = None)
  ∧ (rejected → Sent (run (ImportState r id)) = []
                ∧ State (run (ImportState r id)) = StateUntouched).
Proof.
  intros rejected. unfold rejected.
  destruct (String.index 0 "/" id) as [idx|] eqn:Hidx.
  - destruct (split_at_slash _ _ Hidx) as (Hid & Hno & Hlen & Hlt).
    destruct (decide (String.substring 0 idx id = ""
                      ∨ String.substring (idx + 1) (String.length id - (idx + 1)) id = ""))
      as [Hempty|Hfull].
    + rewrite (ImportState_empty_part _ _ _ Hidx Hempty). simpl.
      split; [|done]. split; [|by eexists].
      intros _ (mount & path & -> & Hm & Hp & Hnom).
      destruct (join_at_slash mount path Hnom) as (Hi & Hsm & Hsp).
      rewrite Hi in Hidx. injection Hidx as <-.
      rewrite Hsm, Hsp in Hempty. tauto.
    + assert (String.substring 0 idx id ≠ "") as Hm by tauto.
      assert (String.substring (idx + 1) (String.length id - (idx + 1)) id ≠ "")
        as Hp by tauto.
      assert (¬ ∃ detail, Diagnostics (run (ImportState r id))
                          = [{| Summary := "Invalid Import ID"; Detail := detail |}])
        as Hnot.
      { destruct (readSecret_total r (String.substring 0 idx id)
                    (String.substring (idx + 1) (String.length id - (idx + 1)) id))
          as [[D|err] Hf].
        - rewrite (ImportState_fetched _ _ _ _ Hidx Hm Hp Hf). by intros [? ?].
        - rewrite (ImportState_fetch_failed _ _ _ _ Hidx Hm Hp Hf). by intros [? ?]. }
      split; [|tauto]. split; [tauto|]. intros Hnone. exfalso. apply Hnone.
      by exists (String.substring 0 idx id),
        (String.substring (idx + 1) (String.length id - (idx + 1)) id).
  - rewrite (ImportState_no_slash _ _ Hidx). simpl.
    split; [|done]. split; [|by eexists].
    intros _ (mount & path & -> & Hm & Hp & Hnom).
    destruct (join_at_slash mount path Hnom) as (Hi & _). congruence.
Qed.

(** X9. The identifier create records imports back to the same location:
    for a mount without a slash and a non-empty mount and path, importing
    mount/path whose document [D] is fetched sets the state with that
    mount, that path and [D] as keys. *)
Theorem import_of_created_id r plan D :
  String.index 0 "/" (Mount plan) = None →
  Mount plan ≠ "" →
  Path plan ≠ "" →
  eval (readSecret r (Mount plan) (Path plan)) = Next (inl D) →
  State (run (ImportState r (Mount plan +:+ "/" +:+ Path plan)))
  = StateSet {| ID := Mount plan +:+ "/" +:+ Path plan;
                Mount := Mount plan; Path := Path plan; Keys := D |}.
Proof.
  intros Hno Hm Hp Hf.
  destruct (join_at_slash _ (Path plan) Hno) as (Hi & Hsm & Hsp).
  rewrite (ImportState_fetched r _ _ D Hi); rewrite ?Hsm, ?Hsp; done.
Qed.

(** X10. Every state that import sets has the identifier it was given, the
    identifier is its mount, a slash and its path, the mount is not empty
    and holds no slash, and the path is not empty: a mount with a slash is
    never recovered by import. *)
Theorem import_state_shape r id st :
  State (run (ImportState r id)) = StateSet st →
  ID st = id
  ∧ id = Mount st +:+ "/" +:+ Path st
  ∧ String.index 0 "/" (Mount st) = None
  ∧ Mount st ≠ ""
  ∧ Path st ≠ "".
Proof.
  intros (idx & D & Hidx & Hm & Hp & _ & ->)%ImportState_inv. simpl.
  destruct (split_at_slash _ _ Hidx) as (Hid & Hno & _). by split_and!.
Qed.

(** X5. Delete after import: the state import sets tracks the whole fetched
    document, so a delete with that state, the secret unchanged in between,
    stores the empty document. *)
Theorem delete_after_import_empties r id st :
  State (run (ImportState r id)) = StateSet st →
  stores (run (Delete r st)) = [∅].
Proof.
  intros (idx & D & Hidx & Hm & Hp & Hf & ->)%ImportState_inv.
  rewrite (Delete_stores _ _ D) by done. simpl. by rewrite drop_all.
Qed.

(** X11. A resource with no keys does not survive a refresh: whatever the
    fetch gives, refresh removes it from the state, without an error. *)
Theorem refresh_removes_empty_resource r state :
  Keys state = ∅ →
  State (run (Read r state)) = StateRemoved
  ∧ Diagnostics (run (Read r state)) = [].
Proof.
  intros Hk. destruct (readSecret_total r (Mount state) (Path state)) as [[D|err] Hf].
  - rewrite (Read_fetched _ _ _ Hf), Hk, map_fold_empty.
    by rewrite decide_True by apply map_size_empty.
  - by rewrite (Read_fetch_failed _ _ _ Hf).
Qed.

(** X12. Importing a path the server answers with 404 is no error: the
    state is set with no keys, and the next refresh removes it. *)
Theorem import_of_absent_secret r id idx resp :
  let mount := String.substring 0 idx id in
  let path := String.substring (idx + 1) (String.length id - (idx + 1)) id in
  String.index 0 "/" id = Some idx →
  mount ≠ "" →
  path ≠ "" →
  fetch_answered r mount path resp →
  StatusCode resp = StatusNotFound →
  ReadError (Body resp) = None →
  let st := {| ID := id; Mount := mount; Path := path; Keys := ∅ |} in
  Diagnostics (run (ImportState r id)) = []
  ∧ State (run (ImportState r id)) = StateSet st
  ∧ State (run (Read r st)) = StateRemoved.
Proof.
  intros mount path Hidx Hm Hp Hans Hst Herr st.
  pose proof (fetch_not_found _ _ _ _ Hans Hst Herr) as Hf.
  rewrite (ImportState_fetched _ _ _ _ Hidx Hm Hp Hf). split_and!; try done.
  rewrite (Read_fetched r st ∅ Hf). simpl. rewrite map_fold_empty.
  by rewrite decide_True by apply map_size_empty.
Qed.
End identifiers.

(** ** Further properties: the requests and their answers *)

Section requests.
Context `{!UrlParser}.
Implicit Types (r : KvKeysResource) (plan state : KvKeysResourceModel) (D : Doc).

Lemma readSecret_sent r mount path :
  Sent (run (readSecret r mount path)) = []
  ∨ Sent (run (readSecret r mount path))
    = [{| Method := "GET";
          URL := Address (client r) +:+ "/v1/" +:+ mount +:+ "/data/" +:+ path;
          Header := [("X-Vault-Token", Token (client r)); ("X-Vault-Request", "true")];
          Payload := None |}].
Proof.
  unfold run, readSecret, http_NewRequest.
  destruct (url_Parse_error _); [by left|]. right.
  unfold mbind, Handler_bind, HTTPClient_Do, mret, Handler_ret; simpl.
  repeat (case_match; simpl); done.
Qed.


(** What a fetch that reached the server comes back with. *)
Lemma readSecret_answered r mount path resp :
  fetch_answered r mount path resp →
  eval (readSecret r mount path)
  = Next (match ReadError (Body resp) with
          | Some err => inr ("failed to read response: " +:+ err)
          | None =>
            if decide (StatusCode resp = StatusNotFound) then inl ∅
            else if decide (StatusCode resp ≠ StatusOK) then
              inr ("vault returned status " +:+ pretty (StatusCode resp)
                   +:+ ": " +:+ Bytes (Body resp))
            else match Json (Body resp) with
                 | UnmarshalError err => inr ("failed to parse response: " +:+ err)
                 | DataNil => inl ∅
                 | DataMap d => inl (map_fold stringify_step ∅ d)
                 end
          end).
Proof.
  intros (req & Hsent & Hdo). revert Hsent.
  unfold eval, run, readSecret, http_NewRequest.
  destruct (url_Parse_error _); [done|].
  unfold mbind, Handler_bind, HTTPClient_Do, mret, Handler_ret; simpl.
  intros Hsent.
  match goal with |- context [Do _ ?q] => assert (q = req) as -> end.
  { repeat (case_match; simpl in * ); congruence. }
  rewrite Hdo. by repeat case_match.
Qed.

Lemma stringify_lookup (d : gmap string JVal) k :
  map_fold stringify_step ∅ d !! k = format_v <$> d !! k.
Proof.
  apply (map_fold_weak_ind
           (λ (acc : Doc) (m : gmap string JVal), acc !! k = format_v <$> m !! k)).
  - by rewrite !lookup_empty.
  - intros i x m acc Hi IH. unfold stringify_step.
    destruct (decide (i = k)) as [->|Hne].
    + by rewrite !lookup_insert_eq.
    + by rewrite !lookup_insert_ne.
Qed.

(** X13. A fetch that reached the server gives a document exactly when the
    body was read without error and the status is 404, or the status is 200
    and the body decodes; any other answer is an error, never an empty
    document. *)
Theorem fetch_gives_document_iff r mount path resp :
  fetch_answered r mount path resp →
  (∃ D, eval (readSecret r mount path) = Next (inl D))
  ↔ ReadError (Body resp) = None
    ∧ (StatusCode resp = StatusNotFound
       ∨ (StatusCode resp = StatusOK
          ∧ ∀ err, Json (Body resp) ≠ UnmarshalError err)).
Proof.
  intros Hans. rewrite (readSecret_answered _ _ _ _ Hans).
  destruct (ReadError (Body resp)) as [err|].
  { split; [by intros [D [=]] | by intros [[=] _]]. }
  destruct (decide (StatusCode resp = StatusNotFound)) as [H404|H404].
  { split; [by intros _; split; [|left] | by eexists]. }
  destruct (decide (StatusCode resp ≠ StatusOK)) as [Hne|Hok].
  { split; [by intros [D [=]] | intros [_ [?|[? _]]]; done]. }
  apply dec_stable in Hok.
  destruct (Json (Body resp)) as [err| |d] eqn:Hj.
  - split; [by intros [D [=]]|]. intros [_ [?|[_ Hno]]]; [done|]. by destruct (Hno err).
  - split; [|by eexists]. intros _. split; [done|]. right. by split.
  - split; [|by eexists]. intros _. split; [done|]. right. by split.
Qed.

(** X14. A fetched document has exactly the keys of the JSON data, each
    with its value as [%v] formats it: what was not a string on the server
    is a string (a null is ["<nil>"]) in the document the handlers work
    with and store back. *)
Theorem fetch_formats_values r mount path resp d :
  fetch_answered r mount path resp →
  StatusCode resp = StatusOK →
  ReadError (Body resp) = None →
  Json (Body resp) = DataMap d →
  ∃ D, eval (readSecret r mount path) = Next (inl D)
       ∧ ∀ k, D !! k = format_v <$> d !! k.
Proof.
  intros Hans Hst Herr Hj. eexists. split.
  - by apply (fetch_data _ _ _ resp d).
  - apply stringify_lookup.
Qed.

(** X15. A store that reached the server succeeds exactly when the status
    is 200 or 204. *)
Theorem store_succeeds_iff r mount path data req resp :
  Sent (run (writeSecret r mount path data)) = [req] →
  Do (HTTPClient (client r)) req = inl resp →
  eval (writeSecret r mount path data) = Next None
  ↔ StatusCode resp = StatusOK ∨ StatusCode resp = StatusNoContent.
Proof.
  unfold eval, run, writeSecret, http_NewRequest.
  destruct (url_Parse_error _); [done|].
  unfold mbind, Handler_bind, HTTPClient_Do, mret, Handler_ret; simpl.
  intros Hsent Hdo.
  match goal with |- context [Do _ ?q] => assert (q = req) as -> end.
  { repeat (case_match; simpl in * ); congruence. }
  rewrite Hdo. case_decide as Hst; simpl.
  - split; [done|]. intros [?|?]; tauto.
  - split; [intros _|done].
    destruct (decide (StatusCode resp = StatusOK)); [by left|].
    destruct (decide (StatusCode resp = StatusNoContent)); [by right|]. tauto.
Qed.




Lemma Read_sent r state :
  Sent (run (Read r state)) = Sent (run (readSecret r (Mount state) (Path state))).
Proof.
  destruct (readSecret_total r (Mount state) (Path state)) as [[D|err] Hf].
  - rewrite (Read_fetched _ _ _ Hf). by case_decide.
  - by rewrite (Read_fetch_failed _ _ _ Hf).
Qed.

Lemma ImportState_sent r id :
  Sent (run (ImportState r id)) = []
  ∨ ∃ mount path, Sent (run (ImportState r id)) = Sent (run (readSecret r mount path)).
Proof.
  destruct (String.index 0 "/" id) as [idx|] eqn:Hidx;
    [|left; by rewrite (ImportState_no_slash _ _ Hidx)].
  destruct (decide (String.substring 0 idx id = ""
                    ∨ String.substring (idx + 1) (String.length id - (idx + 1)) id = ""))
    as [Hempty|Hfull]; [left; by rewrite (ImportState_empty_part _ _ _ Hidx Hempty)|].
  right. eexists _, _.
  destruct (readSecret_total r (String.substring 0 idx id)
              (String.substring (idx + 1) (String.length id - (idx + 1)) id))
    as [[D|err] Hf].
  - by rewrite (ImportState_fetched _ _ _ _ Hidx ltac:(tauto) ltac:(tauto) Hf).
  - by rewrite (ImportState_fetch_failed _ _ _ _ Hidx ltac:(tauto) ltac:(tauto) Hf).
Qed.

(** X16. Refresh and import only read: every request they send is a GET
    without a body, and there is at most one. *)
Theorem refresh_and_import_only_read r state id :
  (Forall (λ req, Method req = "GET" ∧ Payload req = None) (Sent (run (Read r state)))
   ∧ length (Sent (run (Read r state))) ≤ 1)
  ∧ (Forall (λ req, Method req = "GET" ∧ Payload req = None)
       (Sent (run (ImportState r id)))
     ∧ length (Sent (run (ImportState r id))) ≤ 1).
Proof.
  assert (∀ mount path,
            Forall (λ req, Method req = "GET" ∧ Payload req = None)
              (Sent (run (readSecret r mount path)))
            ∧ length (Sent (run (readSecret r mount path))) ≤ 1) as Hread.
  { intros mount path. destruct (readSecret_sent r mount path) as [->| ->]; simpl.
    - split; [constructor|lia].
    - split; [by repeat constructor|lia]. }
  split.
  - rewrite Read_sent. apply Hread.
  - destruct (ImportState_sent r id) as [->|(mount & path & ->)].
    + simpl. split; [constructor|lia].
    + apply Hread.
Qed.


End requests.

(** ** Further properties: the key list of the log *)

Lemma string_compare_trans a b c :
  String.compare a b ≠ Gt → String.compare b c ≠ Gt → String.compare a c ≠ Gt.
Proof.
  revert b c. induction a as [|x a IH]; intros [|y b] [|z c]; simpl; try done.
  unfold Ascii.compare.
  destruct (N.compare_spec (Ascii.N_of_ascii x) (Ascii.N_of_ascii y)) as [Hxy|Hxy|Hxy];
    destruct (N.compare_spec (Ascii.N_of_ascii y) (Ascii.N_of_ascii z)) as [Hyz|Hyz|Hyz];
    destruct (N.compare_spec (Ascii.N_of_ascii x) (Ascii.N_of_ascii z)) as [Hxz|Hxz|Hxz];
    try done; try lia.
  apply IH.
Qed.

#[global] Instance string_le_trans : Transitive string_le.
Proof.
  intros a b c. unfold string_le, String.leb. intros Hab Hbc.
  pose proof (string_compare_trans a b c) as Ht.
  destruct (String.compare a b), (String.compare b c), (String.compare a c);
    try done; exfalso; by apply Ht.
Qed.

#[global] Instance string_le_antisym : AntiSymm (=) string_le.
Proof. intros a b. apply String.leb_antisym. Qed.

#[global] Instance string_le_total : Total string_le.
Proof. intros a b. apply String.leb_total. Qed.

Lemma sort_Strings_unique (l1 l2 : list string) :
  l1 ≡ₚ l2 → sort_Strings l1 = sort_Strings l2.
Proof.
  intros Hp. unfold sort_Strings. apply (Sorted_unique string_le).
  - apply Sorted_merge_sort, _.
  - apply Sorted_merge_sort, _.
  - by rewrite !merge_sort_Permutation.
Qed.

Lemma collect_keys_foldr (order : list (string * string)) :
  foldr (uncurry collect_key_step) [] order = reverse (order.*1).
Proof.
  induction order as [|[k v] l IH]; [done|].
  simpl. unfold collect_key_step at 1. by rewrite IH, reverse_cons.
Qed.

Lemma collect_keys_any_order (m : Doc) (order : list (string * string)) :
  order ≡ₚ map_to_list m →
  foldr (uncurry collect_key_step) [] order ≡ₚ (map_to_list m).*1.
Proof. intros Hp. by rewrite collect_keys_foldr, reverse_Permutation, Hp. Qed.

Lemma keys_of_map_elem_of (m : Doc) k :
  k ∈ (map_to_list m).*1 ↔ is_Some (m !! k).
Proof.
  rewrite list_elem_of_fmap. split.
  - intros ([k' v] & -> & Hin). apply elem_of_map_to_list in Hin. by exists v.
  - intros [v Hv]. exists (k, v). split; [done|]. by apply elem_of_map_to_list.
Qed.

Lemma keys_of_map_same_dom (m1 m2 : Doc) :
  dom m1 = dom m2 → (map_to_list m1).*1 ≡ₚ (map_to_list m2).*1.
Proof.
  intros Hdom. apply NoDup_Permutation; try apply NoDup_fst_map_to_list.
  intros k. rewrite !keys_of_map_elem_of, <-!elem_of_dom. by rewrite Hdom.
Qed.

Lemma keysOnly_from_keys (m : Doc) (keys : list string) :
  keys ≡ₚ (map_to_list m).*1 →
  strings_Join (sort_Strings keys) ", " = keysOnly m.
Proof.
  intros Hp. unfold keysOnly. f_equal. apply sort_Strings_unique.
  rewrite Hp. symmetry. rewrite map_fold_foldr. by apply collect_keys_any_order.
Qed.

(** X18. The key list written to the log depends on the keys alone: two
    maps with the same keys give the same text, whatever their values, so
    no value of a secret reaches the log through it. *)
Theorem keysOnly_hides_values (m1 m2 : Doc) :
  dom m1 = dom m2 → keysOnly m1 = keysOnly m2.
Proof.
  intros Hdom. rewrite <-(keysOnly_from_keys m2 (map_to_list m1).*1).
  - symmetry. by apply keysOnly_from_keys.
  - by apply keys_of_map_same_dom.
Qed.

(** X19. In whatever order the map is iterated, the key list is the same
    text: the keys of the map, each once, in ascending order, joined by a
    comma and a space. *)
Theorem keysOnly_sorted_keys (m : Doc) (order : list (string * string)) :
  order ≡ₚ map_to_list m →
  let keys := sort_Strings (foldr (uncurry collect_key_step) [] order) in
  keysOnly m = strings_Join keys ", "
  ∧ Sorted string_le keys
  ∧ NoDup keys
  ∧ ∀ k, k ∈ keys ↔ is_Some (m !! k).
Proof.
  intros Hp keys.
  assert (keys ≡ₚ (map_to_list m).*1) as Hkeys.
  { unfold keys, sort_Strings. rewrite merge_sort_Permutation.
    by apply collect_keys_any_order. }
  split_and!.
  - symmetry. apply keysOnly_from_keys. by apply collect_keys_any_order.
  - apply Sorted_merge_sort, _.
  - rewrite Hkeys. apply NoDup_fst_map_to_list.
  - intros k. rewrite Hkeys. apply keys_of_map_elem_of.
Qed.

(** ** Further properties: the provider *)

Section provider_properties.
Context `{!Network} `{!UrlParser}.

Lemma Configure_cases (config : VaultPatchProviderModel.t) :
  (∃ address roleID secretID,
      config = {| VaultPatchProviderModel.Address := StringValue address;
                  VaultPatchProviderModel.RoleID := StringValue roleID;
                  VaultPatchProviderModel.SecretID := StringValue secretID |}
      ∧ VaultPatchProvider.Configure config
        = match VaultPatchProvider.authenticateAppRole address roleID secretID with
          | inr err =>
            VaultPatchProvider.failed "Vault Authentication Failed"
              ("Could not authenticate with Vault at " +:+ address +:+ ": " +:+ err)
          | inl token =>
            let client := {| Address := address; Token := token;
                             HTTPClient := http_Client_30s |} in
            {| ConfigureDiagnostics := [];
               DataSourceData := Some client; ResourceData := Some client |}
          end)
  ∨ (∃ summary detail,
        (summary, detail) ∈ [("Missing Vault Address", "The 'address' attribute must be set.");
                             ("Missing Role ID", "The 'role_id' attribute must be set.");
                             ("Missing Secret ID", "The 'secret_id' attribute must be set.")]
        ∧ VaultPatchProvider.Configure config = VaultPatchProvider.failed summary detail
        ∧ ¬ ∃ address roleID secretID,
              config = {| VaultPatchProviderModel.Address := StringValue address;
                          VaultPatchProviderModel.RoleID := StringValue roleID;
                          VaultPatchProviderModel.SecretID := StringValue secretID |}).
Proof.
  destruct config as [[| |address] [| |roleID] [| |secretID]];
    first [ left; by eexists _, _, _
          | right; eexists _, _; split_and!;
            [ | reflexivity | by intros (? & ? & ? & [=]) ]; set_solver ].
Qed.

Lemma login_token_not_empty address roleID secretID token :
  VaultPatchProvider.authenticateAppRole address roleID secretID = inl token →
  token ≠ "".
Proof.
  unfold VaultPatchProvider.authenticateAppRole.
  repeat (case_match; try done). by intros [= <-].
Qed.

(** X20. A login gives a token exactly when the request, carrying the role
    id and the secret id to the login path of the address, was answered
    with status 200 and a body that was read, decoded, and held that token,
    not empty. *)
Theorem login_gives_token_iff address roleID secretID token :
  VaultPatchProvider.authenticateAppRole address roleID secretID = inl token
  ↔ ∃ resp,
      http_Post (address +:+ "/v1/auth/approle/login") "application/json"
                (<["secret_id" := secretID]> (<["role_id" := roleID]> ∅)) = inl resp
      ∧ LoginReadError (LoginBody resp) = None
      ∧ LoginStatusCode resp = StatusOK
      ∧ LoginJson (LoginBody resp) = ClientToken token
      ∧ token ≠ "".
Proof.
  unfold VaultPatchProvider.authenticateAppRole.
  destruct (http_Post _ _ _) as [resp|err].
  - destruct (LoginReadError (LoginBody resp)) as [err|] eqn:Herr.
    { split; [done|]. intros (resp' & [= <-] & ? & _). congruence. }
    case_decide as Hst.
    { split; [done|]. intros (resp' & [= <-] & _ & ? & _). done. }
    destruct (LoginJson (LoginBody resp)) as [err|tok] eqn:Hj.
    { split; [done|]. intros (resp' & [= <-] & _ & _ & ? & _). congruence. }
    case_decide as Htok.
    + split; [done|]. intros (resp' & [= <-] & _ & _ & ? & ?). congruence.
    + split.
      * intros [= <-]. by exists resp.
      * intros (resp' & [= <-] & _ & _ & ? & _). congruence.
  - split; [done|]. by intros (resp' & [=] & _).
Qed.

(** X21. A configuration with a null or unknown address, role id or secret
    id is refused before any login: the response is one error and no
    client, the same on every network. *)
Theorem configure_refuses_missing_attribute (net other : Network) config :
  (¬ ∃ address roleID secretID,
       config = {| VaultPatchProviderModel.Address := StringValue address;
                   VaultPatchProviderModel.RoleID := StringValue roleID;
                   VaultPatchProviderModel.SecretID := StringValue secretID |}) →
  @VaultPatchProvider.Configure net config = @VaultPatchProvider.Configure other config
  ∧ ResourceData (@VaultPatchProvider.Configure net config) = None
  ∧ DataSourceData (@VaultPatchProvider.Configure net config) = None
  ∧ length (ConfigureDiagnostics (@VaultPatchProvider.Configure net config)) = 1.
Proof.
  intros Hmissing.
  destruct config as [[| |address] [| |roleID] [| |secretID]]; try by split_and!.
  exfalso. apply Hmissing. by eexists _, _, _.
Qed.

(** X22. The provider ends configured or with exactly one error. When it is
    configured, every attribute was known, the client has the configured
    address, and its token is the one the login returned, not empty. *)
Theorem configure_client_or_error config :
  (∃ c address roleID secretID,
      ResourceData (VaultPatchProvider.Configure config) = Some c
      ∧ DataSourceData (VaultPatchProvider.Configure config) = Some c
      ∧ ConfigureDiagnostics (VaultPatchProvider.Configure config) = []
      ∧ config = {| VaultPatchProviderModel.Address := StringValue address;
                    VaultPatchProviderModel.RoleID := StringValue roleID;
                    VaultPatchProviderModel.SecretID := StringValue secretID |}
      ∧ Address c = address
      ∧ VaultPatchProvider.authenticateAppRole address roleID secretID = inl (Token c)
      ∧ Token c ≠ "")
  ∨ (ResourceData (VaultPatchProvider.Configure config) = None
     ∧ DataSourceData (VaultPatchProvider.Configure config) = None
     ∧ length (ConfigureDiagnostics (VaultPatchProvider.Configure config)) = 1).
Proof.
  destruct (Configure_cases config)
    as [(address & roleID & secretID & -> & ->)|(summary & detail & _ & -> & _)];
    [|by right].
  destruct (VaultPatchProvider.authenticateAppRole address roleID secretID)
    as [token|err] eqn:Hauth; [|by right].
  left. eexists _, address, roleID, secretID. simpl. split_and!; try done.
  apply login_token_not_empty in Hauth. done.
Qed.
End provider_properties.

(** ** The further properties on concrete clients *)

Lemma create_skips_iff_merge_noop_witness :
  eval (@readSecret parses_all (vault_holding {[ "a" := JString "x" ]})
          "app" "my-service/test")
  = Next (inl {[ "a" := "x" ]})
  ∧ stores (run (@Create parses_all (vault_holding {[ "a" := JString "x" ]})
                   (model_of {[ "a" := "x" ]}))) = [].
Proof.
  assert (eval (@readSecret parses_all (vault_holding {[ "a" := JString "x" ]})
                  "app" "my-service/test")
          = Next (inl {[ "a" := "x" ]})) as Hf by (vm_compute; reflexivity).
  split; [exact Hf|].
  apply (proj2 (@create_skips_iff_merge_noop parses_all _ (model_of {[ "a" := "x" ]}) _ Hf)).
  vm_compute; reflexivity.
Defined.

Lemma delete_after_create_witness :
  stores (run (@Delete parses_all (vault_holding {[ "a" := JString "1"; "z" := JString "9" ]})
                 (model_of {[ "a" := "1" ]})))
  = [ {[ "z" := "9" ]} ].
Proof.
  assert (eval (@readSecret parses_all (vault_holding {[ "z" := JString "9" ]})
                  "app" "my-service/test")
          = Next (inl {[ "z" := "9" ]})) as Hf by (vm_compute; reflexivity).
  assert (State (run (@Create parses_all (vault_holding {[ "z" := JString "9" ]})
                        (model_of {[ "a" := "1" ]})))
          = StateSet (model_of {[ "a" := "1" ]})) as Hst by (vm_compute; reflexivity).
  assert (eval (@readSecret parses_all
                  (vault_holding {[ "a" := JString "1"; "z" := JString "9" ]})
                  (Mount (model_of {[ "a" := "1" ]})) (Path (model_of {[ "a" := "1" ]})))
          = Next (inl (document_after {[ "z" := "9" ]}
                         (run (@Create parses_all (vault_holding {[ "z" := JString "9" ]})
                                 (model_of {[ "a" := "1" ]})))))) as Hf'
    by (vm_compute; reflexivity).
  destruct (@delete_after_create parses_all _ _ (model_of {[ "a" := "1" ]}) _ _ Hf Hst Hf')
    as [Hstores _].
  rewrite Hstores. vm_compute; reflexivity.
Defined.

Lemma delete_retry_stores_same_witness :
  stores (run (@Delete parses_all (vault_holding {[ "z" := JString "9" ]})
                 (model_of {[ "a" := "1" ]})))
  = stores (run (@Delete parses_all
                   (vault_holding {[ "a" := JString "1"; "z" := JString "9" ]})
                   (model_of {[ "a" := "1" ]}))).
Proof.
  assert (eval (@readSecret parses_all
                  (vault_holding {[ "a" := JString "1"; "z" := JString "9" ]})
                  "app" "my-service/test")
          = Next (inl {[ "a" := "1"; "z" := "9" ]})) as Hf by (vm_compute; reflexivity).
  assert (eval (@readSecret parses_all (vault_holding {[ "z" := JString "9" ]})
                  "app" "my-service/test")
          = Next (inl (map_fold drop_step {[ "a" := "1"; "z" := "9" ]}
                         (Keys (model_of {[ "a" := "1" ]}))))) as Hf'
    by (vm_compute; reflexivity).
  exact (@delete_retry_stores_same parses_all _ _ (model_of {[ "a" := "1" ]}) _ Hf Hf').
Defined.

Lemma delete_after_import_empties_witness :
  stores (run (@Delete parses_all (vault_holding {[ "a" := JString "1"; "b" := JString "2" ]})
                 (model_of {[ "a" := "1"; "b" := "2" ]})))
  = [ ∅ ].
Proof.
  assert (State (run (@ImportState parses_all
                        (vault_holding {[ "a" := JString "1"; "b" := JString "2" ]})
                        "app/my-service/test"))
          = StateSet (model_of {[ "a" := "1"; "b" := "2" ]})) as Hst
    by (vm_compute; reflexivity).
  exact (@delete_after_import_empties parses_all _ _ _ Hst).
Defined.

Lemma refresh_after_create_witness :
  State (run (@Read parses_all (vault_holding {[ "a" := JString "1"; "z" := JString "9" ]})
                (model_of {[ "a" := "1" ]})))
  = StateSet (model_of {[ "a" := "1" ]}).
Proof.
  assert (eval (@readSecret parses_all (vault_holding {[ "z" := JString "9" ]})
                  "app" "my-service/test")
          = Next (inl {[ "z" := "9" ]})) as Hf by (vm_compute; reflexivity).
  assert (State (run (@Create parses_all (vault_holding {[ "z" := JString "9" ]})
                        (model_of {[ "a" := "1" ]})))
          = StateSet (model_of {[ "a" := "1" ]})) as Hst by (vm_compute; reflexivity).
  assert (Keys (model_of {[ "a" := "1" ]}) ≠ ∅) as Hne by apply map_non_empty_singleton.
  assert (eval (@readSecret parses_all
                  (vault_holding {[ "a" := JString "1"; "z" := JString "9" ]})
                  (Mount (model_of {[ "a" := "1" ]})) (Path (model_of {[ "a" := "1" ]})))
          = Next (inl (document_after {[ "z" := "9" ]}
                         (run (@Create parses_all (vault_holding {[ "z" := JString "9" ]})
                                 (model_of {[ "a" := "1" ]})))))) as Hf'
    by (vm_compute; reflexivity).
  exact (@refresh_after_create parses_all _ _ (model_of {[ "a" := "1" ]}) _ _ Hf Hst Hne Hf').
Defined.

Lemma refresh_after_update_witness :
  State (run (@Read parses_all (vault_holding {[ "a" := JString "1"; "c" := JString "3" ]})
                (model_of {[ "a" := "1" ]})))
  = StateSet (model_of {[ "a" := "1" ]}).
Proof.
  assert (eval (@readSecret parses_all
                  (vault_holding {[ "a" := JString "0"; "b" := JString "2"; "c" := JString "3" ]})
                  "app" "my-service/test")
          = Next (inl {[ "a" := "0"; "b" := "2"; "c" := "3" ]})) as Hf
    by (vm_compute; reflexivity).
  assert (State (run (@Update parses_all
                        (vault_holding {[ "a" := JString "0"; "b" := JString "2"; "c" := JString "3" ]})
                        (model_of {[ "a" := "1" ]}) (model_of {[ "a" := "0"; "b" := "2" ]})))
          = StateSet (model_of {[ "a" := "1" ]})) as Hst by (vm_compute; reflexivity).
  assert (Keys (model_of {[ "a" := "1" ]}) ≠ ∅) as Hne by apply map_non_empty_singleton.
  assert (eval (@readSecret parses_all
                  (vault_holding {[ "a" := JString "1"; "c" := JString "3" ]})
                  (Mount (model_of {[ "a" := "1" ]})) (Path (model_of {[ "a" := "1" ]})))
          = Next (inl (document_after {[ "a" := "0"; "b" := "2"; "c" := "3" ]}
                         (run (@Update parses_all
                                 (vault_holding {[ "a" := JString "0"; "b" := JString "2"; "c" := JString "3" ]})
                                 (model_of {[ "a" := "1" ]})
                                 (model_of {[ "a" := "0"; "b" := "2" ]})))))) as Hf'
    by (vm_compute; reflexivity).
  exact (@refresh_after_update parses_all _ _ (model_of {[ "a" := "1" ]})
           (model_of {[ "a" := "0"; "b" := "2" ]}) _ _ Hf Hst Hne Hf').
Defined.

Lemma import_rejects_exactly_malformed_witness :
  Sent (run (@ImportState parses_all vault_down "no-slash-here")) = []
  ∧ State (run (@ImportState parses_all vault_down "no-slash-here")) = StateUntouched.
Proof.
  destruct (@import_rejects_exactly_malformed parses_all vault_down "no-slash-here")
    as [_ Hrejected].
  apply Hrejected. eexists. vm_compute. reflexivity.
Defined.

Lemma import_of_created_id_witness :
  State (run (@ImportState parses_all
                (vault_holding {[ "a" := JString "1" ]}) "app/my-service/test"))
  = StateSet (model_of {[ "a" := "1" ]}).
Proof.
  assert (eval (@readSecret parses_all (vault_holding {[ "a" := JString "1" ]})
                  (Mount (model_of ∅)) (Path (model_of ∅)))
          = Next (inl {[ "a" := "1" ]})) as Hf by (vm_compute; reflexivity).
  exact (@import_of_created_id parses_all _ (model_of ∅) _
           eq_refl ltac:(discriminate) ltac:(discriminate) Hf).
Defined.

Lemma import_state_shape_witness :
  ID (model_of {[ "a" := "1" ]}) = "app/my-service/test"
  ∧ "app/my-service/test"
    = Mount (model_of {[ "a" := "1" ]}) +:+ "/" +:+ Path (model_of {[ "a" := "1" ]})
  ∧ String.index 0 "/" (Mount (model_of {[ "a" := "1" ]})) = None
  ∧ Mount (model_of {[ "a" := "1" ]}) ≠ ""
  ∧ Path (model_of {[ "a" := "1" ]}) ≠ "".
Proof.
  assert (State (run (@ImportState parses_all
                        (vault_holding {[ "a" := JString "1" ]}) "app/my-service/test"))
          = StateSet (model_of {[ "a" := "1" ]})) as Hst by (vm_compute; reflexivity).
  exact (@import_state_shape parses_all _ _ _ Hst).
Defined.

Lemma refresh_removes_empty_resource_witness :
  State (run (@Read parses_all (vault_holding {[ "a" := JString "1" ]}) (model_of ∅)))
  = StateRemoved
  ∧ Diagnostics (run (@Read parses_all (vault_holding {[ "a" := JString "1" ]})
                        (model_of ∅))) = [].
Proof.
  exact (@refresh_removes_empty_resource parses_all
           (vault_holding {[ "a" := JString "1" ]}) (model_of ∅) eq_refl).
Defined.

Lemma import_of_absent_secret_witness :
  Diagnostics (run (@ImportState parses_all vault_without_secret "app/my-service/test")) = []
  ∧ State (run (@ImportState parses_all vault_without_secret "app/my-service/test"))
    = StateSet (model_of ∅)
  ∧ State (run (@Read parses_all vault_without_secret (model_of ∅))) = StateRemoved.
Proof.
  assert (@fetch_answered parses_all vault_without_secret "app" "my-service/test"
            {| StatusCode := 404;
               Body := {| Bytes := "{...}"; ReadError := None; Json := DataNil |} |}) as Hans.
  { eexists. split; reflexivity. }
  exact (@import_of_absent_secret parses_all vault_without_secret "app/my-service/test" 3 _
           eq_refl ltac:(discriminate) ltac:(discriminate) Hans eq_refl eq_refl).
Defined.

Lemma fetch_gives_document_iff_witness :
  ¬ ∃ D, eval (@readSecret parses_all (resource_on (scripted 503 DataNil 200))
                 "app" "my-service/test") = Next (inl D).
Proof.
  assert (@fetch_answered parses_all (resource_on (scripted 503 DataNil 200))
            "app" "my-service/test"
            {| StatusCode := 503;
               Body := {| Bytes := "{...}"; ReadError := None; Json := DataNil |} |}) as Hans.
  { eexists. split; reflexivity. }
  intros HD.
  destruct (proj1 (@fetch_gives_document_iff parses_all _ _ _ _ Hans) HD)
    as [_ [H404|[H200 _]]]; discriminate.
Defined.

Lemma fetch_formats_values_witness :
  ∃ D, eval (@readSecret parses_all
               (vault_holding {[ "n" := JNull; "s" := JString "v"; "t" := JBool true ]})
               "app" "my-service/test") = Next (inl D)
       ∧ ∀ k, D !! k
              = format_v <$> ({[ "n" := JNull; "s" := JString "v"; "t" := JBool true ]}
                               : gmap string JVal) !! k.
Proof.
  assert (@fetch_answered parses_all
            (vault_holding {[ "n" := JNull; "s" := JString "v"; "t" := JBool true ]})
            "app" "my-service/test"
            {| StatusCode := 200;
               Body := {| Bytes := "{...}"; ReadError := None;
                          Json := DataMap {[ "n" := JNull; "s" := JString "v";
                                             "t" := JBool true ]} |} |}) as Hans.
  { eexists. split; reflexivity. }
  exact (@fetch_formats_values parses_all _ _ _ _ _ Hans eq_refl eq_refl eq_refl).
Defined.

Lemma store_succeeds_iff_witness :
  eval (@writeSecret parses_all (resource_on (scripted 200 DataNil 204))
          "app" "my-service/test" {[ "a" := "1" ]}) = Next None.
Proof.
  assert (Sent (run (@writeSecret parses_all (resource_on (scripted 200 DataNil 204))
                       "app" "my-service/test" {[ "a" := "1" ]}))
          = [{| Method := "POST";
                URL := "https://vault.example.com/v1/app/data/my-service/test";
                Header := [("X-Vault-Token", "s.token");
                           ("Content-Type", "application/json")];
                Payload := Some {[ "a" := "1" ]} |}]) as Hsent by reflexivity.
  apply (proj2 (@store_succeeds_iff parses_all _ _ _ _ _
                  {| StatusCode := 204;
                     Body := {| Bytes := "{...}"; ReadError := None; Json := DataNil |} |}
                  Hsent eq_refl)).
  by right.
Defined.

Lemma keysOnly_hides_values_witness :
  keysOnly {[ "db_pass" := "hunter2"; "api_key" := "s3cr3t" ]}
  = keysOnly {[ "db_pass" := ""; "api_key" := "" ]}.
Proof.
  apply keysOnly_hides_values. vm_compute. reflexivity.
Defined.

Lemma keysOnly_sorted_keys_witness :
  keysOnly {[ "b" := "2"; "a" := "1" ]}
  = strings_Join (sort_Strings (foldr (uncurry collect_key_step) []
                                  [("b", "2"); ("a", "1")])) ", ".
Proof.
  assert ([("b", "2"); ("a", "1")] ≡ₚ map_to_list ({[ "b" := "2"; "a" := "1" ]} : Doc))
    as Hp.
  { vm_compute. first [reflexivity | apply perm_swap]. }
  exact (proj1 (keysOnly_sorted_keys _ _ Hp)).
Defined.

Lemma configure_refuses_missing_attribute_witness :
  ResourceData (@VaultPatchProvider.Configure (login_answering 200 (ClientToken "s.token"))
                  (config_of (StringValue "https://vault.example.com") StringUnknown
                     (StringValue "secret")))
  = None.
Proof.
  destruct (@configure_refuses_missing_attribute
              (login_answering 200 (ClientToken "s.token"))
              (login_answering 403 (LoginUnmarshalError "denied"))
              (config_of (StringValue "https://vault.example.com") StringUnknown
                 (StringValue "secret")))
    as (_ & Hnone & _); [|exact Hnone].
  intros (address & roleID & secretID & Heq). discriminate Heq.
Defined.

